(** * Product catalogue: routes and storage layer

    A shallow embedding of [server/routes.ts] (the Express handlers for
    [/api/products]) and of the [DatabaseStorage] class they call, together
    with the properties of the product query, filter and write paths.

    Layout:
    - [JS]      : the JavaScript values and built-ins the handlers rely on
                  ([number], [parseInt], [parseFloat], [trim], [split]);
    - [Db]      : the relational store (three tables) and the SQL statements
                  issued through the query builder;
    - [Storage] : the methods of [DatabaseStorage];
    - [Routes]  : the handlers registered by [registerRoutes];
    - [Lookup], [Categories] : the remaining product route and the category
                  methods and routes;
    - [Client]  : the query string, the multi-select and the pagination bar
                  of the browser client;
    - the theorems. *)

From Stdlib Require Import ZArith QArith Qreduction String Ascii List Bool Lia.
From Stdlib Require Import Permutation Sorted.
Import ListNotations.

Local Open Scope string_scope.
Local Open Scope Z_scope.

(* ===================================================================== *)
(** * JavaScript values and built-ins *)
(* ===================================================================== *)

Module JS.

(** A JavaScript [number]. Finite values are kept as exact rationals: the
    model does not round them to binary64, it only maps magnitudes beyond the
    binary64 range to an infinity ([ofQ]); zero has no sign. *)
Inductive number : Type :=
| NaN
| Infinity (negative : bool)
| Fin (q : Q).

Definition ofZ (z : Z) : number := Fin (inject_Z z).

(** Values at or above 2^1024 - 2^970 round to an infinity. *)
Definition overflow_threshold : Z := 2 ^ 1024 - 2 ^ 970.

Definition ofQ (q : Q) : number :=
  if Qle_bool (inject_Z overflow_threshold) q then Infinity false
  else if Qle_bool q (inject_Z (- overflow_threshold)) then Infinity true
  else Fin (Qred q).

Definition Qlt_bool (a b : Q) : bool := negb (Qle_bool b a).

(** [isNaN(x)] *)
Definition isNaN (x : number) : bool :=
  match x with NaN => true | _ => false end.

(** [x < y]: false as soon as one side is [NaN]. *)
Definition lt (x y : number) : bool :=
  match x, y with
  | NaN, _ | _, NaN => false
  | Infinity nx, Infinity ny => nx && negb ny
  | Infinity nx, Fin _ => nx
  | Fin _, Infinity ny => negb ny
  | Fin a, Fin b => Qlt_bool a b
  end.

(** [x > y] *)
Definition gt (x y : number) : bool := lt y x.

(** [x >= y] *)
Definition ge (x y : number) : bool :=
  negb (isNaN x) && negb (isNaN y) && negb (lt x y).

(** [ToBoolean] on a number: [0] and [NaN] are falsy. *)
Definition truthy (x : number) : bool :=
  match x with
  | NaN => false
  | Infinity _ => true
  | Fin q => negb (Qeq_bool q 0)
  end.

(** [x || d] on numbers. *)
Definition or_else (x d : number) : number := if truthy x then x else d.

Definition neg (x : number) : number :=
  match x with
  | NaN => NaN
  | Infinity n => Infinity (negb n)
  | Fin q => Fin (Qred (- q))
  end.

(** [x - y] *)
Definition sub (x y : number) : number :=
  match x, y with
  | NaN, _ | _, NaN => NaN
  | Infinity nx, Infinity ny => if Bool.eqb nx ny then NaN else Infinity nx
  | Infinity nx, Fin _ => Infinity nx
  | Fin _, Infinity ny => Infinity (negb ny)
  | Fin a, Fin b => ofQ (a - b)
  end.

Definition Qneg_bool (q : Q) : bool := Qlt_bool q 0.

(** [x * y] *)
Definition mul (x y : number) : number :=
  match x, y with
  | NaN, _ | _, NaN => NaN
  | Infinity nx, Infinity ny => Infinity (xorb nx ny)
  | Infinity n, Fin q | Fin q, Infinity n =>
      if Qeq_bool q 0 then NaN else Infinity (xorb n (Qneg_bool q))
  | Fin a, Fin b => ofQ (a * b)
  end.

(** A finite number that is an integer, as a [Z]. *)
Definition toInteger (x : number) : option Z :=
  match x with
  | Fin q =>
      let r := Qred q in
      if Pos.eqb (Qden r) 1 then Some (Qnum r) else None
  | _ => None
  end.

(** ** Strings *)

Definition chars : Type := list ascii.

(** White space, within ASCII: space, tab, line feed, vertical tab, form
    feed and carriage return. The white space the language knows outside
    ASCII is not modelled; statements that depend on it are made for
    strings of ASCII characters. *)
Definition is_space (c : ascii) : bool :=
  let n := nat_of_ascii c in
  orb (Nat.eqb n 32) (andb (Nat.leb 9 n) (Nat.leb n 13)).

Fixpoint trimStart (s : chars) : chars :=
  match s with
  | c :: s' => if is_space c then trimStart s' else s
  | [] => []
  end.

Definition trimEnd (s : chars) : chars := rev (trimStart (rev s)).

(** [s.trim()] *)
Definition trim (s : string) : string :=
  string_of_list_ascii (trimEnd (trimStart (list_ascii_of_string s))).

(** [s.includes(c)] for a one-character needle. *)
Definition includes (s : string) (c : ascii) : bool :=
  existsb (Ascii.eqb c) (list_ascii_of_string s).

(** [s.split(c)] for a one-character separator: always at least one piece. *)
Fixpoint split_chars (c : ascii) (s : chars) : list chars :=
  match s with
  | [] => [[]]
  | x :: s' =>
      if Ascii.eqb x c then [] :: split_chars c s'
      else match split_chars c s' with
           | piece :: rest => (x :: piece) :: rest
           | [] => [[x]]
           end
  end.

Definition split (s : string) (c : ascii) : list string :=
  map string_of_list_ascii (split_chars c (list_ascii_of_string s)).

(** [ToBoolean] on a string: only the empty string is falsy. *)
Definition nonempty (s : string) : bool :=
  match s with EmptyString => false | _ => true end.

(** [ToBoolean] on a possibly undefined string. *)
Definition present (s : option string) : bool :=
  match s with Some v => nonempty v | None => false end.

(** ** Numeric parsing *)

Definition digit_value (radix : Z) (c : ascii) : option Z :=
  let n := Z.of_nat (nat_of_ascii c) in
  let v := if (48 <=? n) && (n <=? 57) then Some (n - 48)
           else if (97 <=? n) && (n <=? 122) then Some (n - 87)
           else if (65 <=? n) && (n <=? 90) then Some (n - 55)
           else None in
  match v with
  | Some d => if d <? radix then Some d else None
  | None => None
  end.

(** The longest prefix of radix-[radix] digits, as (digit count, value), and
    the rest of the input. *)
Fixpoint span_digits (radix : Z) (acc : Z) (count : nat) (s : chars)
  : nat * Z * chars :=
  match s with
  | c :: s' =>
      match digit_value radix c with
      | Some d => span_digits radix (acc * radix + d) (S count) s'
      | None => (count, acc, s)
      end
  | [] => (count, acc, [])
  end.

Definition read_sign (s : chars) : bool * chars :=
  match s with
  | "-"%char :: s' => (true, s')
  | "+"%char :: s' => (false, s')
  | _ => (false, s)
  end.

Definition signed (negative : bool) (q : Q) : Q := if negative then - q else q.

(** [parseInt(s)] with no radix argument. *)
Definition parseInt_chars (s : chars) : number :=
  let (negative, s1) := read_sign (trimStart s) in
  let (radix, s2) :=
    match s1 with
    | "0"%char :: "x"%char :: r | "0"%char :: "X"%char :: r => (16, r)
    | _ => (10, s1)
    end in
  match span_digits radix 0 0 s2 with
  | (O, _, _) => NaN
  | (_, v, _) => ofQ (signed negative (inject_Z v))
  end.

(** [parseInt(x)] where [x] may be [undefined] (which reads as the string
    "undefined", hence [NaN]). *)
Definition parseInt (x : option string) : number :=
  match x with
  | Some s => parseInt_chars (list_ascii_of_string s)
  | None => NaN
  end.

Definition is_prefix (p s : chars) : bool :=
  match list_eq_dec ascii_dec p (firstn (List.length p) s) with
  | left _ => true
  | right _ => false
  end.

Definition pow10 (e : Z) : Q :=
  if 0 <=? e then inject_Z (10 ^ e) else 1 # Z.to_pos (10 ^ (- e)).

(** The exponent part [e[+-]digits]; it is read only when digits follow. *)
Definition read_exponent (s : chars) : Z :=
  match s with
  | c :: r =>
      if Ascii.eqb c "e" || Ascii.eqb c "E" then
        let (negative, r') := read_sign r in
        match span_digits 10 0 0 r' with
        | (O, _, _) => 0
        | (_, v, _) => if negative then - v else v
        end
      else 0
  | [] => 0
  end.

(** [parseFloat(s)]: the longest prefix that is a decimal literal. *)
Definition parseFloat_chars (s : chars) : number :=
  let (negative, s1) := read_sign (trimStart s) in
  if is_prefix (list_ascii_of_string "Infinity") s1 then Infinity negative
  else
    let '(ni, vi, r1) := span_digits 10 0 0 s1 in
    let '(nf, vf, r2) :=
      match r1 with
      | "."%char :: r =>
          let '(nf, vf, r') := span_digits 10 vi 0 r in
          match ni, nf with
          | O, O => (O, vi, r1)
          | _, _ => (nf, vf, r')
          end
      | _ => (O, vi, r1)
      end in
    match ni, nf with
    | O, O => NaN
    | _, _ =>
        let e := read_exponent r2 - Z.of_nat nf in
        ofQ (signed negative (inject_Z vf * pow10 e))
    end.

Definition parseFloat (s : string) : number :=
  parseFloat_chars (list_ascii_of_string s).

End JS.


(* ===================================================================== *)
(** * The relational store *)
(* ===================================================================== *)

Module Db.

(** PostgreSQL [numeric]: an exact decimal, here an exact rational. *)
Definition numeric : Type := Q.

(** Modelled from the spec: the table declarations of [@shared/schema]
    ([products], [categories], [productCategories]) are not part of the
    sources at hand; the columns are those the storage layer selects and the
    data model lists. Timestamps are integers. *)
Record Product : Type := {
  id : string;
  name : string;
  description : option string;
  price : numeric;
  stockQuantity : Z;
  imageUrl : option string;
  createdAt : Z;
  updatedAt : Z
}.

Record Category : Type := {
  cat_id : string;
  cat_name : string;
  cat_createdAt : Z
}.

Record ProductCategory : Type := {
  productId : string;
  categoryId : string
}.

(** [InsertProduct]: the columns a client supplies. *)
Record InsertProduct : Type := {
  ins_name : string;
  ins_description : option string;
  ins_price : numeric;
  ins_stockQuantity : Z;
  ins_imageUrl : option string
}.

(** [Partial<InsertProduct>]: every column optional. *)
Record PartialProduct : Type := {
  upd_name : option string;
  upd_description : option (option string);
  upd_price : option numeric;
  upd_stockQuantity : option Z;
  upd_imageUrl : option (option string)
}.

(** The committed state of the database: tables are lists of rows. *)
Record Store : Type := {
  products : list Product;
  categories : list Category;
  productCategories : list ProductCategory
}.

(** What the server supplies on a write: the generated primary key of a new
    row and the value of [NOW()]. *)
Record Env : Type := {
  newId : string;
  now : Z
}.

Inductive error : Type :=
| UniqueViolation
| ForeignKeyViolation
| InvalidStatement.

Inductive outcome (A : Type) : Type :=
| Ok (a : A)
| Throw (e : error).
Arguments Ok {A} a.
Arguments Throw {A} e.

(** A computation against the store. Each statement commits on its own:
    when a later statement throws, the effects of the earlier ones stay. *)
Definition M (A : Type) : Type := Store -> outcome A * Store.

Definition ret {A} (a : A) : M A := fun st => (Ok a, st).
Definition throw {A} (e : error) : M A := fun st => (Throw e, st).
Definition bind {A B} (c : M A) (k : A -> M B) : M B :=
  fun st =>
    match c st with
    | (Ok a, st') => k a st'
    | (Throw e, st') => (Throw e, st')
    end.
Definition read {A} (f : Store -> A) : M A := fun st => (Ok (f st), st).

Declare Scope db_scope.
Delimit Scope db_scope with db.
Notation "x <- c ;; k" := (bind c (fun x => k))
  (at level 61, c at next level, right associativity) : db_scope.
Notation "c ;;; k" := (bind c (fun _ => k))
  (at level 61, right associativity) : db_scope.

(** ** Rows of a SELECT over [products], possibly joined *)

(** A row of [products], or of [products INNER JOIN productCategories]. *)
Definition Row : Type := (Product * option ProductCategory)%type.

(** [FROM products] *)
Definition from_products (st : Store) : list Row :=
  map (fun p => (p, None)) (products st).

(** [FROM products INNER JOIN productCategories
     ON products.id = productCategories.productId] *)
Definition from_products_join (st : Store) : list Row :=
  flat_map
    (fun p =>
       map (fun pc => (p, Some pc))
         (filter (fun pc => String.eqb (id p) (productId pc))
            (productCategories st)))
    (products st).

(** ** Conditions *)

Definition lower (c : ascii) : ascii :=
  let n := nat_of_ascii c in
  if andb (Nat.leb 65 n) (Nat.leb n 90) then ascii_of_nat (n + 32) else c.

(** SQL [LIKE]: [%] matches any run, [_] one character, [\] escapes. *)
Fixpoint like (pat s : list ascii) {struct pat} : bool :=
  match pat with
  | [] => match s with [] => true | _ => false end
  | c :: pat' =>
      if Ascii.eqb c "%" then
        (fix any (s : list ascii) : bool :=
           orb (like pat' s)
               match s with [] => false | _ :: s' => any s' end) s
      else if Ascii.eqb c "_" then
        match s with [] => false | _ :: s' => like pat' s' end
      else if Ascii.eqb c "\" then
        match pat' with
        | e :: pat'' =>
            match s with
            | x :: s' => andb (Ascii.eqb e x) (like pat'' s')
            | [] => false
            end
        | [] => false
        end
      else
        match s with
        | x :: s' => andb (Ascii.eqb c x) (like pat' s')
        | [] => false
        end
  end.

(** [ilike(column, pattern)] *)
Definition ilike (value pattern : string) : bool :=
  like (map lower (list_ascii_of_string pattern))
       (map lower (list_ascii_of_string value)).

(** [column >= parameter] in [numeric]: [NaN] sorts above every value and
    the infinities at the two ends. *)
Definition numeric_ge (v : numeric) (x : JS.number) : bool :=
  match x with
  | JS.NaN => false
  | JS.Infinity negative => negative
  | JS.Fin q => Qle_bool q v
  end.

(** [column <= parameter] in [numeric]. *)
Definition numeric_le (v : numeric) (x : JS.number) : bool :=
  match x with
  | JS.NaN => true
  | JS.Infinity negative => negb negative
  | JS.Fin q => Qle_bool v q
  end.

(** The entries pushed on [conditions]. *)
Inductive Condition : Type :=
| NameILike (pattern : string)
| PriceGe (x : JS.number)
| PriceLe (x : JS.number)
| StockGe (x : JS.number)
| StockLe (x : JS.number)
| CategoryEq (c : string)
| CategoryIn (cs : list string).

Definition holds (c : Condition) (r : Row) : bool :=
  let (p, pc) := r in
  match c with
  | NameILike pattern => ilike (name p) pattern
  | PriceGe x => numeric_ge (price p) x
  | PriceLe x => numeric_le (price p) x
  | StockGe x => numeric_ge (inject_Z (stockQuantity p)) x
  | StockLe x => numeric_le (inject_Z (stockQuantity p)) x
  | CategoryEq c =>
      match pc with
      | Some a => String.eqb (categoryId a) c
      | None => false
      end
  | CategoryIn cs =>
      match pc with
      | Some a => existsb (String.eqb (categoryId a)) cs
      | None => false
      end
  end.

(** [WHERE and(...conditions)] *)
Definition where_and (conditions : list Condition) (rows : list Row) : list Row :=
  filter (fun r => forallb (fun c => holds c r) conditions) rows.

(** An integer column compared with a parameter that is not an integer is
    refused by the server. *)
Definition integer_parameter (x : JS.number) : bool :=
  match JS.toInteger x with Some _ => true | None => false end.

Definition well_typed (c : Condition) : bool :=
  match c with
  | StockGe x | StockLe x => integer_parameter x
  | _ => true
  end.

(** ** Ordering and windows *)

(** What a statement is ordered by: a column of [products], or a term that
    is no column at all. The builder sends such a term as a bound value,
    the same on every row, and the server accepts it. *)
Inductive Column : Type :=
  ColName | ColPrice | ColStock | ColCreatedAt | ColConstant.

(** [ORDER BY column ASC] on two product rows. *)
Definition column_leb (c : Column) (a b : Product) : bool :=
  match c with
  | ColName => String.leb (name a) (name b)
  | ColPrice => Qle_bool (price a) (price b)
  | ColStock => Z.leb (stockQuantity a) (stockQuantity b)
  | ColCreatedAt => Z.leb (createdAt a) (createdAt b)
  | ColConstant => true
  end.

Inductive Direction : Type := Asc | Desc.

Definition order_leb (d : Direction) (c : Column) (a b : Product) : bool :=
  match d with
  | Asc => column_leb c a b
  | Desc => column_leb c b a
  end.

Fixpoint insert_sorted {A} (leb : A -> A -> bool) (x : A) (l : list A) : list A :=
  match l with
  | [] => [x]
  | y :: l' => if leb x y then x :: l else y :: insert_sorted leb x l'
  end.

(** One way the server may carry out [ORDER BY]: a stable sort of the rows
    in the order the scan produced them. *)
Definition orderBy {A} (leb : A -> A -> bool) (rows : list A) : list A :=
  fold_right (insert_sorted leb) [] rows.

(** The largest value of the 64-bit integers the server counts rows in. *)
Definition max_bigint : Z := 2 ^ 63 - 1.

(** The value of a LIMIT or OFFSET clause: the server takes an integer
    from [0] to [max_bigint] and refuses anything else. *)
Definition row_count (x : JS.number) : option Z :=
  match JS.toInteger x with
  | Some z => if (0 <=? z) && (z <=? max_bigint) then Some z else None
  | None => None
  end.

(** [.limit(limit).offset(offset)]. The query builder writes the LIMIT
    clause only for a limit [>= 0] and the OFFSET clause only for an offset
    that is truthy; a statement without the clause is not limited, or
    starts at the first row. *)
Definition limit_offset {A} (limit offset : JS.number) (rows : list A)
  : option (list A) :=
  let from_offset :=
    if JS.truthy offset
    then option_map (fun o => skipn (Z.to_nat o) rows) (row_count offset)
    else Some rows in
  match from_offset with
  | Some rest =>
      if JS.ge limit (JS.ofZ 0)
      then option_map (fun l => firstn (Z.to_nat l) rest) (row_count limit)
      else Some rest
  | None => None
  end.

(** [count(distinct products.id)] *)
Definition count_distinct_id (rows : list Row) : Z :=
  Z.of_nat (List.length (nodup string_dec (map (fun r => id (fst r)) rows))).

(** ** Statements that write *)

Definition has_product (st : Store) (pid : string) : bool :=
  existsb (fun p => String.eqb (id p) pid) (products st).

Definition has_category (st : Store) (cid : string) : bool :=
  existsb (fun c => String.eqb (cat_id c) cid) (categories st).

Definition same_pair (a b : ProductCategory) : bool :=
  String.eqb (productId a) (productId b) && String.eqb (categoryId a) (categoryId b).

Fixpoint pairwise_distinct (rows : list ProductCategory) : bool :=
  match rows with
  | [] => true
  | a :: rows' => negb (existsb (same_pair a) rows') && pairwise_distinct rows'
  end.

(** Modelled from the spec: the constraints of the association table declared
    in [@shared/schema], which is not part of the sources at hand: composite
    uniqueness on (productId, categoryId) and a foreign key to each of the two
    tables. [unique_pairs] says whether the composite uniqueness is declared. *)
Definition check_insert (unique_pairs : bool) (st : Store)
  (rows : list ProductCategory) : option error :=
  if negb (forallb (fun a => has_product st (productId a) && has_category st (categoryId a)) rows)
  then Some ForeignKeyViolation
  else if unique_pairs && negb (pairwise_distinct (productCategories st ++ rows))
  then Some UniqueViolation
  else None.

(** [INSERT INTO productCategories VALUES rows]: one statement, all rows or
    none. *)
Definition insert_productCategories (unique_pairs : bool)
  (rows : list ProductCategory) : M unit :=
  fun st =>
    match check_insert unique_pairs st rows with
    | Some e => (Throw e, st)
    | None =>
        (Ok tt, {| products := products st;
                   categories := categories st;
                   productCategories := productCategories st ++ rows |})
    end.

(** [DELETE FROM productCategories WHERE productId = pid] *)
Definition delete_productCategories (pid : string) : M unit :=
  fun st =>
    (Ok tt, {| products := products st;
               categories := categories st;
               productCategories :=
                 filter (fun a => negb (String.eqb (productId a) pid))
                   (productCategories st) |}).

Definition default {A} (o : option A) (d : A) : A :=
  match o with Some v => v | None => d end.

(** [{ ...product, updatedAt: NOW() }] applied to one row. *)
Definition set_columns (patch : PartialProduct) (now : Z) (p : Product) : Product :=
  {| id := id p;
     name := default (upd_name patch) (name p);
     description := default (upd_description patch) (description p);
     price := default (upd_price patch) (price p);
     stockQuantity := default (upd_stockQuantity patch) (stockQuantity p);
     imageUrl := default (upd_imageUrl patch) (imageUrl p);
     createdAt := createdAt p;
     updatedAt := now |}.

(** [UPDATE products SET ... WHERE id = pid RETURNING *] *)
Definition update_products (pid : string) (patch : PartialProduct) (now : Z)
  : M (list Product) :=
  fun st =>
    let products' :=
      map (fun p => if String.eqb (id p) pid then set_columns patch now p else p)
        (products st) in
    (Ok (filter (fun p => String.eqb (id p) pid) products'),
     {| products := products';
        categories := categories st;
        productCategories := productCategories st |}).

(** [INSERT INTO products VALUES product RETURNING *]: the key and the two
    timestamps are column defaults. *)
Definition insert_products (env : Env) (product : InsertProduct) : M (list Product) :=
  fun st =>
    if has_product st (newId env) then (Throw UniqueViolation, st)
    else
      let row := {| id := newId env;
                    name := ins_name product;
                    description := ins_description product;
                    price := ins_price product;
                    stockQuantity := ins_stockQuantity product;
                    imageUrl := ins_imageUrl product;
                    createdAt := now env;
                    updatedAt := now env |} in
      (Ok [row],
       {| products := products st ++ [row];
          categories := categories st;
          productCategories := productCategories st |}).

(** Modelled from the spec: the foreign key of the association table on
    [products], declared in [@shared/schema] (not part of the sources at
    hand), cascades on delete: the association rows that point at a deleted
    product row go with it. *)
Definition cascade (deleted : list Product) (rows : list ProductCategory)
  : list ProductCategory :=
  filter (fun a => negb (existsb (fun p => String.eqb (id p) (productId a)) deleted))
    rows.

(** [DELETE FROM products WHERE id = pid] *)
Definition delete_products (pid : string) : M unit :=
  fun st =>
    let deleted := filter (fun p => String.eqb (id p) pid) (products st) in
    (Ok tt,
     {| products := filter (fun p => negb (String.eqb (id p) pid)) (products st);
        categories := categories st;
        productCategories := cascade deleted (productCategories st) |}).

End Db.

(* ===================================================================== *)
(** * DatabaseStorage *)
(* ===================================================================== *)

Module Storage.
Import Db.
Local Open Scope db_scope.

(** [ProductWithCategories]: [{ ...product, categories }] *)
Record ProductWithCategories : Type := {
  product : Product;
  attached : list Category
}.

(** The argument of [getProducts]; [None] is [undefined]. *)
Record ProductsParams : Type := {
  page : option JS.number;
  limit : option JS.number;
  search : option string;
  categoryId : option string;
  categoryIds : option (list string);
  minPrice : option JS.number;
  maxPrice : option JS.number;
  minStock : option JS.number;
  maxStock : option JS.number;
  sortBy : option string;
  sortOrder : option string
}.

Record ProductsResult : Type := {
  result_products : list ProductWithCategories;
  total : Z
}.

(** [categoryIds?.length ? categoryIds : (categoryId ? [categoryId] : null)] *)
Definition categoriesToFilter (params : ProductsParams) : option (list string) :=
  match categoryIds params with
  | Some (c :: cs) => Some (c :: cs)
  | _ =>
      match Storage.categoryId params with
      | Some c => if JS.nonempty c then Some [c] else None
      | None => None
      end
  end.

(** [categoriesToFilter && categoriesToFilter.length > 0] *)
Definition joins_categories (params : ProductsParams) : bool :=
  match categoriesToFilter params with
  | Some (_ :: _) => true
  | _ => false
  end.

Definition optional {A} (o : option JS.number) (f : JS.number -> A) : list A :=
  match o with Some x => [f x] | None => [] end.

(** The array [conditions], in the order of the pushes. *)
Definition conditions (params : ProductsParams) : list Condition :=
  (match search params with
   | Some s => if JS.nonempty s then [NameILike ("%" ++ s ++ "%")] else []
   | None => []
   end)
  ++ optional (minPrice params) PriceGe
  ++ optional (maxPrice params) PriceLe
  ++ optional (minStock params) StockGe
  ++ optional (maxStock params) StockLe
  ++ (match categoriesToFilter params with
      | Some [c] => [CategoryEq c]
      | Some (c :: cs) => [CategoryIn (c :: cs)]
      | _ => []
      end).

(** The rows both queries range over: the FROM clause, with the join when a
    category filter is present, and the WHERE clause when there is a
    condition. *)
Definition filtered_rows (st : Store) (params : ProductsParams) : list Row :=
  let rows := if joins_categories params then from_products_join st
              else from_products st in
  match conditions params with
  | [] => rows
  | cs => where_and cs rows
  end.

(** The columns of [query]: those of [products] only. *)
Definition selected (st : Store) (params : ProductsParams) : list Product :=
  map fst (filtered_rows st params).

(** The members every object literal inherits from [Object.prototype]. *)
Definition inherited (key : string) : bool :=
  existsb (String.eqb key)
    ["constructor"; "hasOwnProperty"; "isPrototypeOf";
     "propertyIsEnumerable"; "toLocaleString"; "toString"; "valueOf";
     "__defineGetter__"; "__defineSetter__"; "__lookupGetter__";
     "__lookupSetter__"; "__proto__"].

(** [{ name: ..., price: ..., stock: ..., createdAt: ... }[sortBy]]: one of
    the four keys of the literal gives its column; an inherited member
    gives a value that is no column; any other name gives [undefined]. *)
Definition sortColumn (sortBy : string) : option Column :=
  if String.eqb sortBy "name" then Some ColName
  else if String.eqb sortBy "price" then Some ColPrice
  else if String.eqb sortBy "stock" then Some ColStock
  else if String.eqb sortBy "createdAt" then Some ColCreatedAt
  else if inherited sortBy then Some ColConstant
  else None.

(** [sortOrder === 'asc' ? asc(...) : desc(...)] *)
Definition direction (sortOrder : string) : Direction :=
  if String.eqb sortOrder "asc" then Asc else Desc.

Definition page_of (params : ProductsParams) : JS.number :=
  default (page params) (JS.ofZ 1).
Definition limit_of (params : ProductsParams) : JS.number :=
  default (limit params) (JS.ofZ 10).
Definition sortBy_of (params : ProductsParams) : string :=
  default (sortBy params) "createdAt".
Definition sortOrder_of (params : ProductsParams) : string :=
  default (sortOrder params) "desc".

(** [(page - 1) * limit] *)
Definition offset_of (params : ProductsParams) : JS.number :=
  JS.mul (JS.sub (page_of params) (JS.ofZ 1)) (limit_of params).

(** The categories of one product: [categories INNER JOIN productCategories
    ON categories.id = productCategories.categoryId
    WHERE productCategories.productId = pid]. *)
Definition categories_of (st : Store) (pid : string) : list Category :=
  flat_map
    (fun c =>
       map (fun _ => c)
         (filter (fun a => String.eqb (cat_id c) (Db.categoryId a)
                           && String.eqb (productId a) pid)
            (productCategories st)))
    (categories st).

Definition attach (st : Store) (p : Product) : ProductWithCategories :=
  {| product := p; attached := categories_of st (id p) |}.

(** [getProducts(params)]. A sort column that is [undefined] gives no valid
    ORDER BY clause; the statement is then refused, like one whose window or
    integer parameter is ill-formed. *)
Definition getProducts (params : ProductsParams) : M ProductsResult :=
  fun st =>
    match sortColumn (sortBy_of params) with
    | None => (Throw InvalidStatement, st)
    | Some column =>
        if negb (forallb well_typed (conditions params))
        then (Throw InvalidStatement, st)
        else
          let ordered :=
            orderBy (order_leb (direction (sortOrder_of params)) column)
              (selected st params) in
          match limit_offset (limit_of params) (offset_of params) ordered with
          | None => (Throw InvalidStatement, st)
          | Some rows =>
              (Ok {| result_products := map (attach st) rows;
                     total := count_distinct_id (filtered_rows st params) |},
               st)
          end
    end.

(** [getProduct(id)] *)
Definition getProduct (pid : string) : M (option ProductWithCategories) :=
  read (fun st =>
          match filter (fun p => String.eqb (id p) pid) (products st) with
          | p :: _ => Some (attach st p)
          | [] => None
          end).

Definition association_rows (pid : string) (categoryIds : list string)
  : list ProductCategory :=
  map (fun c => {| productId := pid; Db.categoryId := c |}) categoryIds.

Section Schema.

(** Whether the association table declares the composite uniqueness. *)
Variable unique_pairs : bool.

(** [createProduct(product, categoryIds)]; [returning()] yields the inserted
    row, which [newProduct] names. *)
Definition createProduct (env : Env) (product : InsertProduct)
  (categoryIds : list string) : M (option ProductWithCategories) :=
  inserted <- insert_products env product ;;
  match inserted with
  | newProduct :: _ =>
      match categoryIds with
      | _ :: _ =>
          insert_productCategories unique_pairs
            (association_rows (id newProduct) categoryIds)
      | [] => ret tt
      end ;;;
      getProduct (id newProduct)
  | [] => throw InvalidStatement
  end.

(** [updateProduct(id, product, categoryIds?)] *)
Definition updateProduct (env : Env) (pid : string) (patch : PartialProduct)
  (categoryIds : option (list string)) : M (option ProductWithCategories) :=
  update_products pid patch (now env) ;;;
  match categoryIds with
  | Some ids =>
      delete_productCategories pid ;;;
      match ids with
      | _ :: _ =>
          insert_productCategories unique_pairs (association_rows pid ids)
      | [] => ret tt
      end
  | None => ret tt
  end ;;;
  getProduct pid.

End Schema.

(** [deleteProduct(id)] *)
Definition deleteProduct (pid : string) : M unit := delete_products pid.

End Storage.

(* ===================================================================== *)
(** * The handlers of registerRoutes *)
(* ===================================================================== *)

Module Routes.
Import Db Storage.

(** A value of [req.query] that may be repeated in the URL. *)
Inductive QueryValue : Type :=
| QString (s : string)
| QArray (items : list string).

(** [req.query] of [GET /api/products]. *)
Record Query : Type := {
  q_page : option string;
  q_limit : option string;
  q_search : option string;
  q_categoryId : option string;
  q_categoryIds : option QueryValue;
  q_minPrice : option string;
  q_maxPrice : option string;
  q_minStock : option string;
  q_maxStock : option string;
  q_sortBy : option string;
  q_sortOrder : option string
}.

(** The [categoryIds] member of a JSON request body. *)
Inductive BodyValue : Type :=
| BUndefined
| BArray (items : list string)
| BOther.

Inductive Response : Type :=
| Products (status : Z) (body : ProductsResult)
| OneProduct (status : Z) (body : option ProductWithCategories)
| Message (status : Z) (message : string)
| Empty (status : Z).

Definition status_of (r : Response) : Z :=
  match r with
  | Products s _ | OneProduct s _ | Message s _ | Empty s => s
  end.

(** [(x as string) || d] *)
Definition string_or (x : option string) (d : string) : string :=
  match x with
  | Some s => if JS.nonempty s then s else d
  | None => d
  end.

(** [x ? parse(x) : undefined] *)
Definition parse_if_present (parse : string -> JS.number) (x : option string)
  : option JS.number :=
  match x with
  | Some s => if JS.nonempty s then Some (parse s) else None
  | None => None
  end.

(** [v !== undefined && (isNaN(v) || v < 0)] *)
Definition invalid_bound (v : option JS.number) : bool :=
  match v with
  | Some x => JS.isNaN x || JS.lt x (JS.ofZ 0)
  | None => false
  end.

(** [lo !== undefined && hi !== undefined && lo > hi] *)
Definition crossed (lo hi : option JS.number) : bool :=
  match lo, hi with
  | Some a, Some b => JS.gt a b
  | _, _ => false
  end.

(** The six range checks, in order; the message of the first that fires. *)
Definition validate_ranges (minPrice maxPrice minStock maxStock : option JS.number)
  : option string :=
  if invalid_bound minPrice then Some "Invalid minPrice value"
  else if invalid_bound maxPrice then Some "Invalid maxPrice value"
  else if crossed minPrice maxPrice then Some "minPrice cannot be greater than maxPrice"
  else if invalid_bound minStock then Some "Invalid minStock value"
  else if invalid_bound maxStock then Some "Invalid maxStock value"
  else if crossed minStock maxStock then Some "minStock cannot be greater than maxStock"
  else None.

Definition nonblank (s : string) : bool := JS.nonempty (JS.trim s).

(** [categoryIdsArray] *)
Definition categoryIdsArray (v : option QueryValue) : option (list string) :=
  match v with
  | Some (QArray items) =>
      Some (filter (fun s => JS.nonempty s && nonblank s) items)
  | Some (QString s) =>
      if JS.nonempty s then
        if JS.includes s "," then
          Some (filter JS.nonempty (map JS.trim (JS.split s ",")))
        else if nonblank s then Some [JS.trim s]
        else None
      else None
  | None => None
  end.

Definition parseInt_string (s : string) : JS.number := JS.parseInt (Some s).

(** The object handed to [storage.getProducts]. *)
Definition params_of (q : Query) : ProductsParams :=
  {| page := Some (JS.or_else (JS.parseInt (q_page q)) (JS.ofZ 1));
     limit := Some (JS.or_else (JS.parseInt (q_limit q)) (JS.ofZ 10));
     search := q_search q;
     Storage.categoryId := q_categoryId q;
     categoryIds := categoryIdsArray (q_categoryIds q);
     minPrice := parse_if_present JS.parseFloat (q_minPrice q);
     maxPrice := parse_if_present JS.parseFloat (q_maxPrice q);
     minStock := parse_if_present parseInt_string (q_minStock q);
     maxStock := parse_if_present parseInt_string (q_maxStock q);
     sortBy := Some (string_or (q_sortBy q) "createdAt");
     sortOrder := Some (string_or (q_sortOrder q) "desc") |}.

(** [GET /api/products] *)
Definition get_products (q : Query) (st : Store) : Response * Store :=
  let params := params_of q in
  match validate_ranges (minPrice params) (maxPrice params)
          (minStock params) (maxStock params) with
  | Some message => (Message 400 message, st)
  | None =>
      match getProducts params st with
      | (Ok result, st') => (Products 200 result, st')
      | (Throw _, st') => (Message 500 "Failed to fetch products", st')
      end
  end.

(** Modelled from the spec: [insertProductSchema] of [@shared/schema] is not
    part of the sources at hand; a name is non-empty, a price and a stock
    quantity are non-negative. *)
Definition valid_insert (p : InsertProduct) : bool :=
  JS.nonempty (ins_name p) && Qle_bool 0 (ins_price p) && (0 <=? ins_stockQuantity p).

(** Modelled from the spec: [insertProductSchema.partial()], the same checks
    on the columns that are present. *)
Definition valid_partial (p : PartialProduct) : bool :=
  match upd_name p with Some n => JS.nonempty n | None => true end
  && match upd_price p with Some x => Qle_bool 0 x | None => true end
  && match upd_stockQuantity p with Some z => 0 <=? z | None => true end.

Section Schema.

Variable unique_pairs : bool.

(** [POST /api/products] *)
Definition post_product (env : Env) (productData : InsertProduct)
  (categoryIds : BodyValue) (st : Store) : Response * Store :=
  if negb (valid_insert productData)
  then (Message 400 "Validation error", st)
  else
    let categoryIdsArray :=
      match categoryIds with BArray items => items | _ => [] end in
    match createProduct unique_pairs env productData categoryIdsArray st with
    | (Ok p, st') => (OneProduct 201 p, st')
    | (Throw _, st') => (Message 500 "Failed to create product", st')
    end.

(** [PUT /api/products/:id] *)
Definition put_product (env : Env) (pid : string) (productData : PartialProduct)
  (categoryIds : BodyValue) (st : Store) : Response * Store :=
  if negb (valid_partial productData)
  then (Message 400 "Validation error", st)
  else
    let categoryIdsArray :=
      match categoryIds with BArray items => Some items | _ => None end in
    match updateProduct unique_pairs env pid productData categoryIdsArray st with
    | (Ok p, st') => (OneProduct 200 p, st')
    | (Throw _, st') => (Message 500 "Failed to update product", st')
    end.

End Schema.

(** [DELETE /api/products/:id] *)
Definition delete_product (pid : string) (st : Store) : Response * Store :=
  match deleteProduct pid st with
  | (Ok _, st') => (Empty 204, st')
  | (Throw _, st') => (Message 500 "Failed to delete product", st')
  end.

End Routes.

(* ===================================================================== *)
(** * Notions used to state the properties *)
(* ===================================================================== *)

Module Props.
Import Db Storage Routes.

(** The association rows of one product. *)
Definition associations (st : Store) (pid : string) : list ProductCategory :=
  filter (fun a => String.eqb (productId a) pid) (productCategories st).

(** The association rows of every other product. *)
Definition other_associations (st : Store) (pid : string) : list ProductCategory :=
  filter (fun a => negb (String.eqb (productId a) pid)) (productCategories st).

(** The filter on product attributes, as the design states it: a substring
    match on the name, and inclusive bounds on price and stock. *)
Definition satisfies_attributes (params : ProductsParams) (p : Product) : bool :=
  match search params with
  | Some s => if JS.nonempty s then ilike (name p) ("%" ++ s ++ "%") else true
  | None => true
  end
  && match minPrice params with Some x => numeric_ge (price p) x | None => true end
  && match maxPrice params with Some x => numeric_le (price p) x | None => true end
  && match minStock params with
     | Some x => numeric_ge (inject_Z (stockQuantity p)) x | None => true end
  && match maxStock params with
     | Some x => numeric_le (inject_Z (stockQuantity p)) x | None => true end.

(** "The product has an association row whose categoryId is in the set." *)
Definition member_of (st : Store) (cs : list string) (p : Product) : bool :=
  existsb
    (fun a => String.eqb (id p) (productId a)
              && existsb (String.eqb (Db.categoryId a)) cs)
    (productCategories st).

(** The category condition on a joined row. *)
Definition in_set (cs : list string) (pc : option ProductCategory) : bool :=
  match pc with
  | Some a => existsb (String.eqb (Db.categoryId a)) cs
  | None => false
  end.

(** A product satisfies the filter-set. *)
Definition satisfies (st : Store) (params : ProductsParams) (p : Product) : bool :=
  satisfies_attributes params p
  && match categoriesToFilter params with
     | Some cs => member_of st cs p
     | None => true
     end.

(** The value a row is ordered by; a price in lowest terms. A term that is
    no column has one value on all rows. *)
Inductive SortValue : Type :=
| VText (s : string)
| VNumeric (q : Q)
| VInteger (z : Z)
| VConstant.

Definition column_value (c : Column) (p : Product) : SortValue :=
  match c with
  | ColName => VText (name p)
  | ColPrice => VNumeric (Qred (price p))
  | ColStock => VInteger (stockQuantity p)
  | ColCreatedAt => VInteger (createdAt p)
  | ColConstant => VConstant
  end.

Definition ordered_by (leb : Product -> Product -> bool) (rows : list Product) : Prop :=
  StronglySorted (fun a b => leb a b = true) rows.

(** What SQL promises of [ORDER BY column LIMIT l OFFSET o]: the window is
    cut from some arrangement of the selected rows that is ordered by the
    column. Rows with equal sort values may come in any order. *)
Definition execution (st : Store) (params : ProductsParams) (rows : list Product) : Prop :=
  exists column ordered,
    sortColumn (sortBy_of params) = Some column /\
    Permutation (selected st params) ordered /\
    ordered_by (order_leb (direction (sortOrder_of params)) column) ordered /\
    limit_offset (limit_of params) (offset_of params) ordered = Some rows.

(** The store respects the declared constraints of the association table. *)
Definition consistent (unique_pairs : bool) (st : Store) : Prop :=
  Forall (fun a => has_product st (productId a) = true) (productCategories st)
  /\ (unique_pairs = true -> pairwise_distinct (productCategories st) = true).


(** A number that is not below zero: [NaN], the positive infinity or a
    non-negative finite value. *)
Definition not_negative (x : JS.number) : Prop :=
  match x with
  | JS.NaN => True
  | JS.Infinity negative => negative = false
  | JS.Fin q => (0 <= q)%Q
  end.

(** The store after the first two statements of an update that replaces the
    associations: the row update and the delete. *)
Definition after_delete (env : Env) (pid : string) (patch : PartialProduct)
  (st : Store) : Store :=
  snd (delete_productCategories pid (snd (update_products pid patch (now env) st))).

(** ** Changing one parameter of a query string *)

Definition with_categoryIds (v : QueryValue) (q : Query) : Query :=
  {| q_page := q_page q; q_limit := q_limit q; q_search := q_search q;
     q_categoryId := q_categoryId q; q_categoryIds := Some v;
     q_minPrice := q_minPrice q; q_maxPrice := q_maxPrice q;
     q_minStock := q_minStock q; q_maxStock := q_maxStock q;
     q_sortBy := q_sortBy q; q_sortOrder := q_sortOrder q |}.

Definition with_minPrice (v : string) (q : Query) : Query :=
  {| q_page := q_page q; q_limit := q_limit q; q_search := q_search q;
     q_categoryId := q_categoryId q; q_categoryIds := q_categoryIds q;
     q_minPrice := Some v; q_maxPrice := q_maxPrice q;
     q_minStock := q_minStock q; q_maxStock := q_maxStock q;
     q_sortBy := q_sortBy q; q_sortOrder := q_sortOrder q |}.

Definition with_page (v : string) (q : Query) : Query :=
  {| q_page := Some v; q_limit := q_limit q; q_search := q_search q;
     q_categoryId := q_categoryId q; q_categoryIds := q_categoryIds q;
     q_minPrice := q_minPrice q; q_maxPrice := q_maxPrice q;
     q_minStock := q_minStock q; q_maxStock := q_maxStock q;
     q_sortBy := q_sortBy q; q_sortOrder := q_sortOrder q |}.


Definition with_sort (sortBy sortOrder : option string) (q : Query) : Query :=
  {| q_page := q_page q; q_limit := q_limit q; q_search := q_search q;
     q_categoryId := q_categoryId q; q_categoryIds := q_categoryIds q;
     q_minPrice := q_minPrice q; q_maxPrice := q_maxPrice q;
     q_minStock := q_minStock q; q_maxStock := q_maxStock q;
     q_sortBy := sortBy; q_sortOrder := sortOrder |}.

End Props.

(** ** A small catalogue *)

Module Sample.
Import Db Storage Routes Props.

Definition tools : Category :=
  {| cat_id := "c1"; cat_name := "Tools"; cat_createdAt := 1 |}.
Definition electronics : Category :=
  {| cat_id := "c2"; cat_name := "Electronics"; cat_createdAt := 2 |}.

Definition widget : Product :=
  {| id := "p1"; name := "Widget"; description := None; price := 999 # 100;
     stockQuantity := 5; imageUrl := None; createdAt := 10; updatedAt := 10 |}.
Definition gadget : Product :=
  {| id := "p2"; name := "Gadget"; description := None; price := 1999 # 100;
     stockQuantity := 0; imageUrl := None; createdAt := 10; updatedAt := 10 |}.

Definition link (p c : string) : ProductCategory :=
  {| productId := p; Db.categoryId := c |}.

(** Widget is a tool; Gadget is a tool and an electronic device. *)
Definition store : Store :=
  {| products := [widget; gadget];
     categories := [tools; electronics];
     productCategories := [link "p1" "c1"; link "p2" "c1"; link "p2" "c2"] |}.

(** [GET /api/products] with no parameter. *)
Definition bare : Query :=
  {| q_page := None; q_limit := None; q_search := None; q_categoryId := None;
     q_categoryIds := None; q_minPrice := None; q_maxPrice := None;
     q_minStock := None; q_maxStock := None; q_sortBy := None;
     q_sortOrder := None |}.

Definition no_change : PartialProduct :=
  {| upd_name := None; upd_description := None; upd_price := None;
     upd_stockQuantity := None; upd_imageUrl := None |}.

(** A patch that renames and restocks. *)
Definition rename : PartialProduct :=
  {| upd_name := Some "Widget II"; upd_description := None; upd_price := None;
     upd_stockQuantity := Some 7; upd_imageUrl := None |}.

Definition gizmo : InsertProduct :=
  {| ins_name := "Gizmo"; ins_description := None; ins_price := 5 # 1;
     ins_stockQuantity := 3; ins_imageUrl := None |}.

Definition env : Env := {| newId := "p3"; now := 20 |}.

(** Both the single and the plural category parameter. *)
Definition both_categories : ProductsParams :=
  {| page := None; limit := None; search := None;
     Storage.categoryId := Some "c1"; categoryIds := Some ["c2"];
     minPrice := None; maxPrice := None; minStock := None; maxStock := None;
     sortBy := None; sortOrder := None |}.

(** What the handler passes to the storage layer for a bare request. *)
Definition defaults : ProductsParams := params_of Sample.bare.

Definition ids (rows : list ProductWithCategories) : list string :=
  map (fun r => id (product r)) rows.

End Sample.

(* ===================================================================== *)
(** * The remaining product route and the category routes *)
(* ===================================================================== *)

Module Lookup.
Import Db Storage Routes.

(** [GET /api/products/:id] *)
Definition get_product (pid : string) (st : Store) : Response * Store :=
  match getProduct pid st with
  | (Ok None, st') => (Message 404 "Product not found", st')
  | (Ok (Some p), st') => (OneProduct 200 (Some p), st')
  | (Throw _, st') => (Message 500 "Failed to fetch product", st')
  end.

End Lookup.

Module Categories.
Import Db.
Local Open Scope db_scope.

(** [CategoryWithProductCount]: the category columns and [productCount]. *)
Record CategoryWithProductCount : Type := {
  category : Category;
  productCount : Z
}.

(** [InsertCategory] *)
Record InsertCategory : Type := {
  ins_cat_name : string
}.

(** A row of [categories LEFT JOIN productCategories]: a category without
    association row comes once, with nulls on the right. *)
Definition JoinRow : Type := (Category * option ProductCategory)%type.

(** [FROM categories LEFT JOIN productCategories
     ON categories.id = productCategories.categoryId] *)
Definition from_categories_left_join (st : Store) : list JoinRow :=
  flat_map
    (fun c =>
       match filter (fun a => String.eqb (cat_id c) (categoryId a))
               (productCategories st) with
       | [] => [(c, None)]
       | rows => map (fun a => (c, Some a)) rows
       end)
    (categories st).

(** [count(productCategories.categoryId)]: the rows of the group where the
    column is not null. *)
Definition count_not_null (rows : list JoinRow) : Z :=
  Z.of_nat (List.length (filter (fun r => match snd r with Some _ => true | None => false end) rows)).

(** [GROUP BY categories.id]: one output row per id that occurs, with the
    columns of the first row of the group. *)
Definition group_by_id (rows : list JoinRow) : list CategoryWithProductCount :=
  flat_map
    (fun i =>
       match filter (fun r => String.eqb (cat_id (fst r)) i) rows with
       | first :: rest =>
           [{| category := fst first;
               productCount := count_not_null (first :: rest) |}]
       | [] => []
       end)
    (nodup string_dec (map (fun r => cat_id (fst r)) rows)).

Definition name_leb (a b : CategoryWithProductCount) : bool :=
  String.leb (cat_name (category a)) (cat_name (category b)).

(** [getCategories()] *)
Definition getCategories : M (list CategoryWithProductCount) :=
  read (fun st => orderBy name_leb (group_by_id (from_categories_left_join st))).

(** [getCategory(id)] *)
Definition getCategory (cid : string) : M (option Category) :=
  read (fun st =>
          match filter (fun c => String.eqb (cat_id c) cid) (categories st) with
          | c :: _ => Some c
          | [] => None
          end).

(** [INSERT INTO categories VALUES category RETURNING *]: the key and the
    timestamp are column defaults. *)
Definition insert_categories (env : Env) (category : InsertCategory)
  : M (list Category) :=
  fun st =>
    if has_category st (newId env) then (Throw UniqueViolation, st)
    else
      let row := {| cat_id := newId env;
                    cat_name := ins_cat_name category;
                    cat_createdAt := now env |} in
      (Ok [row],
       {| products := products st;
          categories := categories st ++ [row];
          productCategories := productCategories st |}).

(** [createCategory(category)] *)
Definition createCategory (env : Env) (category : InsertCategory) : M Category :=
  inserted <- insert_categories env category ;;
  match inserted with
  | newCategory :: _ => ret newCategory
  | [] => throw InvalidStatement
  end.

(** Modelled from the spec: the foreign key of the association table on
    [categories], declared in [@shared/schema] (not part of the sources at
    hand), cascades on delete. *)
Definition cascade_category (deleted : list Category) (rows : list ProductCategory)
  : list ProductCategory :=
  filter (fun a => negb (existsb (fun c => String.eqb (cat_id c) (categoryId a)) deleted))
    rows.

(** [deleteCategory(id)]: [DELETE FROM categories WHERE id = cid] *)
Definition deleteCategory (cid : string) : M unit :=
  fun st =>
    let deleted := filter (fun c => String.eqb (cat_id c) cid) (categories st) in
    (Ok tt,
     {| products := products st;
        categories := filter (fun c => negb (String.eqb (cat_id c) cid)) (categories st);
        productCategories := cascade_category deleted (productCategories st) |}).

(** What the category handlers answer. *)
Inductive Response : Type :=
| CategoryList (status : Z) (body : list CategoryWithProductCount)
| OneCategory (status : Z) (body : Category)
| Message (status : Z) (message : string)
| Empty (status : Z).

Definition status_of (r : Response) : Z :=
  match r with
  | CategoryList s _ | OneCategory s _ | Message s _ | Empty s => s
  end.

(** [GET /api/categories] *)
Definition get_categories (st : Store) : Response * Store :=
  match getCategories st with
  | (Ok l, st') => (CategoryList 200 l, st')
  | (Throw _, st') => (Message 500 "Failed to fetch categories", st')
  end.

(** [GET /api/categories/:id] *)
Definition get_category (cid : string) (st : Store) : Response * Store :=
  match getCategory cid st with
  | (Ok None, st') => (Message 404 "Category not found", st')
  | (Ok (Some c), st') => (OneCategory 200 c, st')
  | (Throw _, st') => (Message 500 "Failed to fetch category", st')
  end.

(** Modelled from the spec: [insertCategorySchema] of [@shared/schema] is
    not part of the sources at hand; a name is non-empty. *)
Definition valid_category (c : InsertCategory) : bool := JS.nonempty (ins_cat_name c).

(** [POST /api/categories] *)
Definition post_category (env : Env) (body : InsertCategory) (st : Store)
  : Response * Store :=
  if negb (valid_category body) then (Message 400 "Validation error", st)
  else
    match createCategory env body st with
    | (Ok c, st') => (OneCategory 201 c, st')
    | (Throw _, st') => (Message 500 "Failed to create category", st')
    end.

(** [DELETE /api/categories/:id] *)
Definition delete_category (cid : string) (st : Store) : Response * Store :=
  match deleteCategory cid st with
  | (Ok _, st') => (Empty 204, st')
  | (Throw _, st') => (Message 500 "Failed to delete category", st')
  end.

End Categories.

(* ===================================================================== *)
(** * The client: query string, multi-select and pagination *)
(* ===================================================================== *)

Module Client.

(** [useProducts]: [if (params.categoryIds?.length)
    queryParams.set('categoryIds', params.categoryIds.join(','))] *)
Definition categoryIds_param (categoryIds : list string) : option string :=
  match categoryIds with
  | [] => None
  | _ :: _ => Some (String.concat "," categoryIds)
  end.

(** [MultiSelect], [handleRemove]: [value.filter(v => v !== optionValue)] *)
Definition handleRemove (value : list string) (optionValue : string) : list string :=
  filter (fun v => negb (String.eqb v optionValue)) value.

(** [MultiSelect], [handleSelect]: the new [value] handed to [onValueChange]. *)
Definition handleSelect (value : list string) (optionValue : string) : list string :=
  if existsb (String.eqb optionValue) value
  then filter (fun v => negb (String.eqb v optionValue)) value
  else (value ++ [optionValue])%list.

(** An entry of the pagination bar. *)
Inductive PageItem : Type :=
| PageNumber (n : Z)
| Dots.

(** [for (let i = lo; ...; i++) range.push(i)], run [n] times. *)
Fixpoint count_up (lo : Z) (n : nat) : list Z :=
  match n with
  | O => []
  | S k => lo :: count_up (lo + 1) k
  end.

(** [Pagination], [getVisiblePages] *)
Definition getVisiblePages (currentPage totalPages : Z) : list PageItem :=
  let delta := 2 in
  let lo := Z.max 2 (currentPage - delta) in
  let hi := Z.min (totalPages - 1) (currentPage + delta) in
  let range := count_up lo (Z.to_nat (hi - lo + 1)) in
  ((if currentPage - delta >? 2 then [PageNumber 1; Dots] else [PageNumber 1])
   ++ map PageNumber range
   ++ (if currentPage + delta <? totalPages - 1 then [Dots; PageNumber totalPages]
       else if totalPages >? 1 then [PageNumber totalPages]
       else []))%list.

(** What [Pagination] renders: nothing for a single page. *)
Definition Pagination (currentPage totalPages : Z) : option (list PageItem) :=
  if totalPages <=? 1 then None else Some (getVisiblePages currentPage totalPages).

(** [ProductTable]: [Math.ceil(data.total / 10)], on a count of rows. *)
Definition totalPages (total : Z) : Z := - ((- total) / 10).

(** [ProductTable]: "Showing [from] to [to] of [total] results". *)
Definition showing_from (page : Z) : Z := (page - 1) * 10 + 1.
Definition showing_to (page total : Z) : Z := Z.min (page * 10) total.

End Client.

(** ** Further notions used to state properties *)

Module MoreProps.
Import Db Storage Routes Props Client.

(** A number below zero. *)
Definition negative (x : JS.number) : Prop :=
  match x with
  | JS.NaN => False
  | JS.Infinity neg => neg = true
  | JS.Fin q => (q < 0)%Q
  end.

(** An integer a binary64 holds exactly. *)
Definition safe_integer (z : Z) : Prop := - 2 ^ 53 < z < 2 ^ 53.

(** A string of ASCII characters only. *)
Definition ascii_only (s : string) : Prop :=
  forallb (fun c => (nat_of_ascii c <? 128)%nat) (list_ascii_of_string s) = true.

(** A category id as the server generates them: ASCII, not empty, no comma,
    no white space at either end. *)
Definition clean_id (s : string) : Prop :=
  ascii_only s /\ s <> "" /\ JS.includes s "," = false /\ JS.trim s = s.

(** What an update makes of a row: a column the patch names takes the
    value of the patch, a column it leaves out keeps its value, the id and
    the time of creation are kept, and [updatedAt] is the time of the
    update. *)
Definition patched (patch : PartialProduct) (t : Z) (p p' : Product) : Prop :=
  id p' = id p
  /\ createdAt p' = createdAt p
  /\ updatedAt p' = t
  /\ name p' = match upd_name patch with Some v => v | None => name p end
  /\ description p'
     = match upd_description patch with Some v => v | None => description p end
  /\ price p' = match upd_price patch with Some v => v | None => price p end
  /\ stockQuantity p'
     = match upd_stockQuantity patch with
       | Some v => v
       | None => stockQuantity p
       end
  /\ imageUrl p'
     = match upd_imageUrl patch with Some v => v | None => imageUrl p end.

(** The bar read from left to right after the page [prev]: two numbers that
    follow each other are consecutive pages, and dots stand for at least one
    page left out. [dots] tells whether dots were just passed. *)
Fixpoint gaps_ok (prev : Z) (dots : bool) (l : list PageItem) : bool :=
  match l with
  | [] => negb dots
  | Dots :: l' => negb dots && gaps_ok prev true l'
  | PageNumber n :: l' =>
      (if dots then prev + 1 <? n else n =? prev + 1) && gaps_ok n false l'
  end.

(** Storage parameters that set only the window. *)
Definition window (page limit : Z) (params : ProductsParams) : ProductsParams :=
  {| Storage.page := Some (JS.ofZ page); Storage.limit := Some (JS.ofZ limit);
     search := search params; Storage.categoryId := Storage.categoryId params;
     categoryIds := categoryIds params;
     minPrice := minPrice params; maxPrice := maxPrice params;
     minStock := minStock params; maxStock := maxStock params;
     sortBy := sortBy params; sortOrder := sortOrder params |}.

(** The number of association rows that name a category. *)
Definition links (st : Store) (c : Category) : Z :=
  Z.of_nat (List.length
              (filter (fun a => String.eqb (cat_id c) (Db.categoryId a))
                 (productCategories st))).

(** The entry of a category in the category listing. *)
Definition entry (st : Store) (c : Category) : Categories.CategoryWithProductCount :=
  {| Categories.category := c; Categories.productCount := links st c |}.

(** The row a create inserts. *)
Definition inserted_row (env : Env) (product : InsertProduct) : Product :=
  {| id := newId env; name := ins_name product;
     description := ins_description product; price := ins_price product;
     stockQuantity := ins_stockQuantity product; imageUrl := ins_imageUrl product;
     createdAt := now env; updatedAt := now env |}.

(** The rows the left join gives one category. *)
Definition rows_of (st : Store) (c : Category) : list Categories.JoinRow :=
  match filter (fun a => String.eqb (cat_id c) (Db.categoryId a))
          (productCategories st) with
  | [] => [(c, None)]
  | rows => map (fun a => (c, Some a)) rows
  end.

(** The characters a [LIKE] pattern gives a meaning to. *)
Definition wildcard (c : ascii) : bool :=
  Ascii.eqb c "%" || Ascii.eqb c "_" || Ascii.eqb c "\".

(** A store whose primary keys are unique. *)
Definition unique_keys (st : Store) : Prop :=
  NoDup (map id (products st)) /\ NoDup (map cat_id (categories st)).

End MoreProps.

(* ===================================================================== *)
(** * The built-ins on a few inputs *)
(* ===================================================================== *)

Example parseInt_neg : JS.parseInt (Some "-5") = JS.ofZ (-5).
Proof. vm_compute. reflexivity. Qed.
Example parseInt_px : JS.parseInt (Some " 12px") = JS.ofZ 12.
Proof. vm_compute. reflexivity. Qed.
Example parseInt_hex : JS.parseInt (Some "0x1f") = JS.ofZ 31.
Proof. vm_compute. reflexivity. Qed.
Example parseInt_abc : JS.parseInt (Some "abc") = JS.NaN.
Proof. vm_compute. reflexivity. Qed.
Example parseFloat_1 : JS.parseFloat "10.50" = JS.Fin (21 # 2).
Proof. vm_compute. reflexivity. Qed.
Example parseFloat_2 : JS.parseFloat "-.5e1x" = JS.Fin (-5 # 1).
Proof. vm_compute. reflexivity. Qed.
Example parseFloat_3 : JS.parseFloat "1e999" = JS.Infinity false.
Proof. vm_compute. reflexivity. Qed.
Example parseFloat_4 : JS.parseFloat "Infinity" = JS.Infinity false.
Proof. vm_compute. reflexivity. Qed.
Example parseFloat_5 : JS.parseFloat "." = JS.NaN.
Proof. vm_compute. reflexivity. Qed.
Example parseFloat_6 : JS.parseFloat "5.e2" = JS.Fin (500 # 1).
Proof. vm_compute. reflexivity. Qed.
Example parseFloat_7 : JS.parseFloat "1e-2" = JS.Fin (1 # 100).
Proof. vm_compute. reflexivity. Qed.
Example split_1 : JS.split "a,,b," ","%char = ["a"; ""; "b"; ""].
Proof. vm_compute. reflexivity. Qed.
Example trim_1 : JS.trim "  a b " = "a b".
Proof. vm_compute. reflexivity. Qed.

(** The window and the sort column on a few inputs. *)

Example window_of_negative_limit :
  Db.limit_offset (JS.ofZ (-1)) (JS.ofZ 0) ["a"; "b"; "c"] = Some ["a"; "b"; "c"].
Proof. vm_compute. reflexivity. Qed.
Example window_of_negative_offset :
  Db.limit_offset (JS.ofZ 10) (JS.ofZ (-60)) ["a"; "b"; "c"] = None.
Proof. vm_compute. reflexivity. Qed.
Example window_of_second_page :
  Db.limit_offset (JS.ofZ 1) (JS.ofZ 1) ["a"; "b"; "c"] = Some ["b"].
Proof. vm_compute. reflexivity. Qed.
Example window_beyond_64_bits :
  Db.limit_offset (JS.ofZ 10) (JS.ofZ (2 ^ 63)) ["a"; "b"; "c"] = None.
Proof. vm_compute. reflexivity. Qed.
Example sortColumn_own : Storage.sortColumn "stock" = Some Db.ColStock.
Proof. reflexivity. Qed.
Example sortColumn_inherited : Storage.sortColumn "toString" = Some Db.ColConstant.
Proof. reflexivity. Qed.
Example sortColumn_undefined : Storage.sortColumn "rating" = None.
Proof. reflexivity. Qed.
Example sortBy_toString_is_served :
  Routes.get_products (Props.with_sort (Some "toString") None Sample.bare) Sample.store
  = (Routes.Products 200
       {| Storage.result_products :=
            map (Storage.attach Sample.store) [Sample.widget; Sample.gadget];
          Storage.total := 2 |},
     Sample.store).
Proof. vm_compute. reflexivity. Qed.
Example sortBy_rating_is_a_server_error :
  Routes.get_products (Props.with_sort (Some "rating") None Sample.bare) Sample.store
  = (Routes.Message 500 "Failed to fetch products", Sample.store).
Proof. vm_compute. reflexivity. Qed.

(* ===================================================================== *)
(** * Properties of the write path *)
(* ===================================================================== *)

Section WritePath.
Import Db Storage Routes Props.
Local Open Scope list_scope.

Lemma filter_all {A} (f : A -> bool) (l : list A) :
  (forall x, In x l -> f x = true) -> filter f l = l.
Proof.
  induction l as [|x l IH]; simpl; intros H; [reflexivity|].
  rewrite (H x (or_introl eq_refl)). f_equal. apply IH. intros y Hy. apply H. now right.
Qed.

Lemma filter_none {A} (f : A -> bool) (l : list A) :
  (forall x, In x l -> f x = false) -> filter f l = [].
Proof.
  induction l as [|x l IH]; simpl; intros H; [reflexivity|].
  rewrite (H x (or_introl eq_refl)). apply IH. intros y Hy. apply H. now right.
Qed.

Lemma has_product_false st pid :
  has_product st pid = false ->
  forall p, In p (products st) -> String.eqb (id p) pid = false.
Proof.
  unfold has_product. intros H p Hp.
  destruct (String.eqb (id p) pid) eqn:E; [|reflexivity].
  rewrite <- H. symmetry. apply existsb_exists. now exists p.
Qed.

Lemma store_eta st :
  {| products := products st; categories := categories st;
     productCategories := productCategories st |} = st.
Proof. now destruct st. Qed.

Lemma associations_rows_self pid ids :
  filter (fun a => String.eqb (productId a) pid) (association_rows pid ids)
  = association_rows pid ids.
Proof.
  apply filter_all. intros a Ha. unfold association_rows in Ha.
  apply in_map_iff in Ha as [c [<- _]]. simpl. apply String.eqb_refl.
Qed.

Lemma associations_rows_other pid ids :
  filter (fun a => negb (String.eqb (productId a) pid)) (association_rows pid ids) = [].
Proof.
  apply filter_none. intros a Ha. unfold association_rows in Ha.
  apply in_map_iff in Ha as [c [<- _]]. simpl. now rewrite String.eqb_refl.
Qed.

Lemma filter_filter_neg {A} (f : A -> bool) (l : list A) :
  filter f (filter (fun a => negb (f a)) l) = [].
Proof.
  apply filter_none. intros x Hx. apply filter_In in Hx as [_ Hx].
  now destruct (f x).
Qed.

Lemma filter_idem {A} (f : A -> bool) (l : list A) :
  filter f (filter f l) = filter f l.
Proof. apply filter_all. intros x Hx. now apply filter_In in Hx. Qed.

Lemma after_delete_associations env pid patch st :
  associations (after_delete env pid patch st) pid = []
  /\ other_associations (after_delete env pid patch st) pid = other_associations st pid.
Proof.
  unfold after_delete, associations, other_associations. simpl. split.
  - apply filter_filter_neg.
  - apply filter_idem.
Qed.

Lemma updateProduct_replace_eq u env pid patch ids st :
  updateProduct u env pid patch (Some ids) st =
  let st1 := after_delete env pid patch st in
  match ids with
  | [] => getProduct pid st1
  | _ :: _ =>
      match check_insert u st1 (association_rows pid ids) with
      | Some e => (Throw e, st1)
      | None =>
          getProduct pid
            {| products := products st1; categories := categories st1;
               productCategories :=
                 productCategories st1 ++ association_rows pid ids |}
      end
  end.
Proof.
  unfold updateProduct, bind, after_delete. simpl.
  destruct ids as [|c cs]; [reflexivity|].
  unfold insert_productCategories. simpl.
  match goal with |- context [check_insert u ?s ?r] => destruct (check_insert u s r) end;
    reflexivity.
Qed.


Lemma getProduct_pure pid st : snd (getProduct pid st) = st.
Proof. reflexivity. Qed.

Lemma getProduct_ok pid st : exists v, fst (getProduct pid st) = Ok v.
Proof. unfold getProduct, read. simpl. eauto. Qed.

(** C2. An update that omits [categoryIds] leaves the association table as it
    was; an update with an empty [categoryIds] removes every association row
    of the product (and no row of another product). Both succeed. The PUT
    handler passes an absent or non-array [categoryIds] as omitted and an
    empty array as empty. *)
Theorem updateProduct_omitted_keeps_empty_clears :
  forall (u : bool) (env : Env) (pid : string) (patch : PartialProduct) (st : Store),
    let omitted := updateProduct u env pid patch None st in
    let emptied := updateProduct u env pid patch (Some []) st in
    ((exists v, fst omitted = Ok v)
     /\ productCategories (snd omitted) = productCategories st)
    /\ ((exists v, fst emptied = Ok v)
        /\ associations (snd emptied) pid = []
        /\ other_associations (snd emptied) pid = other_associations st pid)
    /\ productCategories (snd (put_product u env pid patch BUndefined st))
       = productCategories st
    /\ productCategories (snd (put_product u env pid patch BOther st))
       = productCategories st
    /\ (valid_partial patch = true ->
        status_of (fst (put_product u env pid patch (BArray []) st)) = 200
        /\ associations (snd (put_product u env pid patch (BArray []) st)) pid = []).
Proof.
  intros u env pid patch st omitted emptied.
  assert (Hom : omitted = getProduct pid (snd (update_products pid patch (now env) st)))
    by reflexivity.
  assert (Hem : emptied = getProduct pid (after_delete env pid patch st))
    by (unfold emptied; now rewrite updateProduct_replace_eq).
  split; [|split; [|split; [|split]]].
  - split; rewrite Hom; [apply getProduct_ok | reflexivity].
  - rewrite Hem, getProduct_pure. split; [apply getProduct_ok|].
    apply after_delete_associations.
  - unfold put_product. destruct (valid_partial patch); reflexivity.
  - unfold put_product. destruct (valid_partial patch); reflexivity.
  - intros Hvalid. unfold put_product. rewrite Hvalid. simpl negb. cbv iota.
    fold emptied. rewrite Hem. unfold getProduct, read. simpl.
    split; [reflexivity|]. apply after_delete_associations.
Qed.

Lemma updateProduct_omitted_keeps_empty_clears_witness :
  valid_partial Sample.no_change = true
  /\ associations
       (snd (put_product true Sample.env "p2" Sample.no_change (BArray []) Sample.store))
       "p2" = [].
Proof.
  split; [reflexivity|].
  apply (updateProduct_omitted_keeps_empty_clears true Sample.env "p2"
           Sample.no_change Sample.store).
  reflexivity.
Defined.

(** C3, as the code has it. The delete and the insert of a replacement are
    two statements, each committed on its own: rows of other products are
    never touched; when the insert is accepted the product ends with exactly
    the new rows; when it is refused the update fails and the product is left
    with no association row, the delete and the row update being kept. *)
Theorem updateProduct_replace_is_two_statements :
  forall (u : bool) (env : Env) (pid : string) (patch : PartialProduct)
         (ids : list string) (st : Store),
    ids <> [] ->
    let result := updateProduct u env pid patch (Some ids) st in
    other_associations (snd result) pid = other_associations st pid
    /\ match fst result with
       | Ok _ => associations (snd result) pid = association_rows pid ids
       | Throw e =>
           check_insert u (after_delete env pid patch st) (association_rows pid ids)
           = Some e
           /\ snd result = after_delete env pid patch st
           /\ associations (snd result) pid = []
       end.
Proof.
  intros u env pid patch ids st Hids result.
  unfold result. rewrite updateProduct_replace_eq. cbv zeta.
  destruct ids as [|c cs]; [congruence|].
  pose proof (after_delete_associations env pid patch st) as [Hself Hother].
  destruct (check_insert u (after_delete env pid patch st)
              (association_rows pid (c :: cs))) as [e|] eqn:Hc.
  - simpl fst. simpl snd. auto.
  - rewrite getProduct_pure.
    destruct (getProduct_ok pid
      {| products := products (after_delete env pid patch st);
         categories := categories (after_delete env pid patch st);
         productCategories :=
           productCategories (after_delete env pid patch st)
           ++ association_rows pid (c :: cs) |}) as [v Hv].
    rewrite Hv. unfold associations, other_associations in *.
    cbn [productCategories].
    rewrite !filter_app, Hself, Hother, associations_rows_self,
      associations_rows_other, app_nil_r. auto.
Qed.

Lemma updateProduct_replace_is_two_statements_witness :
  ["c2"] <> []
  /\ other_associations
       (snd (updateProduct true Sample.env "p2" Sample.no_change (Some ["c2"]) Sample.store))
       "p2"
     = other_associations Sample.store "p2".
Proof.
  split; [discriminate|].
  apply (updateProduct_replace_is_two_statements true Sample.env "p2"
           Sample.no_change ["c2"] Sample.store).
  discriminate.
Defined.

(** C3, as stated, fails: replacing the categories of Gadget by one that does
    not exist is refused at the insert, after the delete was committed; the
    failed write leaves Gadget with no association and the store changed. *)
Lemma updateProduct_failed_replace_is_not_undone :
  let result :=
    updateProduct true Sample.env "p2" Sample.no_change (Some ["c9"]) Sample.store in
  fst result = Throw ForeignKeyViolation
  /\ associations Sample.store "p2" = [Sample.link "p2" "c1"; Sample.link "p2" "c2"]
  /\ associations (snd result) "p2" = []
  /\ snd result <> Sample.store.
Proof.
  vm_compute. repeat split. discriminate.
Qed.


Lemma pairwise_distinct_app (l1 l2 : list ProductCategory) :
  pairwise_distinct l1 = true ->
  pairwise_distinct l2 = true ->
  (forall a b, In a l1 -> In b l2 -> same_pair a b = false) ->
  pairwise_distinct (l1 ++ l2) = true.
Proof.
  induction l1 as [|a l1 IH]; simpl; intros H1 H2 H; [assumption|].
  apply andb_true_iff in H1 as [Ha H1].
  apply andb_true_iff. split.
  - rewrite existsb_app, negb_orb, Ha. simpl.
    apply negb_true_iff. destruct (existsb (same_pair a) l2) eqn:E; [|reflexivity].
    apply existsb_exists in E as [b [Hb E]].
    rewrite (H a b (or_introl eq_refl) Hb) in E. discriminate.
  - apply IH; auto.
Qed.

Lemma pairwise_distinct_rows pid ids :
  NoDup ids -> pairwise_distinct (association_rows pid ids) = true.
Proof.
  induction 1 as [|c ids Hc Hnd IH]; simpl; [reflexivity|].
  rewrite IH, andb_true_r. apply negb_true_iff.
  destruct (existsb _ _) eqn:E; [|reflexivity].
  apply existsb_exists in E as [b [Hb E]].
  apply in_map_iff in Hb as [c' [<- Hc']].
  unfold same_pair in E. simpl in E.
  apply andb_true_iff in E as [_ E]. apply String.eqb_eq in E. congruence.
Qed.

Lemma forallb_true {A} (f : A -> bool) (l : list A) :
  (forall x, In x l -> f x = true) -> forallb f l = true.
Proof. intros H. now apply forallb_forall. Qed.

(** C8, as the code has it. The supplied list is inserted as it is, one row
    per element, by one statement. When the ids are pairwise distinct and
    name existing categories (and the generated key is fresh, in a store that
    respects its constraints) the create succeeds and the new product has
    exactly one association row per supplied id. *)
Theorem createProduct_distinct_ids_one_row_each :
  forall (u : bool) (env : Env) (product : InsertProduct) (ids : list string)
         (st : Store),
    consistent u st ->
    has_product st (newId env) = false ->
    NoDup ids ->
    (forall c, In c ids -> has_category st c = true) ->
    let result := createProduct u env product ids st in
    (exists v, fst result = Ok (Some v))
    /\ associations (snd result) (newId env) = association_rows (newId env) ids
    /\ productCategories (snd result)
       = (productCategories st ++ association_rows (newId env) ids)%list
    /\ NoDup (associations (snd result) (newId env)).
Proof.
  intros u env product ids st [Hfk Huniq] Hfresh Hnd Hcats result.
  set (row := {| id := newId env; name := ins_name product;
                 description := ins_description product;
                 price := ins_price product;
                 stockQuantity := ins_stockQuantity product;
                 imageUrl := ins_imageUrl product;
                 createdAt := now env; updatedAt := now env |}).
  set (st1 := {| products := products st ++ [row]; categories := categories st;
                 productCategories := productCategories st |}).
  assert (Hold : filter (fun a => String.eqb (productId a) (newId env))
                   (productCategories st) = []).
  { apply filter_none. intros a Ha.
    rewrite Forall_forall in Hfk. specialize (Hfk a Ha).
    destruct (String.eqb (productId a) (newId env)) eqn:E; [|reflexivity].
    apply String.eqb_eq in E. congruence. }
  assert (Hfind : forall pcs,
             exists v, getProduct (newId env)
                         {| products := products st ++ [row];
                            categories := categories st;
                            productCategories := pcs |}
                       = (Ok (Some v),
                          {| products := products st ++ [row];
                             categories := categories st;
                             productCategories := pcs |})).
  { intros pcs. unfold getProduct, read. cbn [products].
    rewrite filter_app, (filter_none _ (products st)) by
      (apply has_product_false; assumption).
    simpl. rewrite String.eqb_refl. eauto. }
  assert (Hrows_nd : NoDup (association_rows (newId env) ids)).
  { unfold association_rows. apply Finite.Injective_map_NoDup; [|assumption].
    intros x y E. now inversion E. }
  assert (Hstep : createProduct u env product ids st =
                  match ids with
                  | [] => getProduct (newId env) st1
                  | _ :: _ =>
                      getProduct (newId env)
                        {| products := products st1; categories := categories st1;
                           productCategories :=
                             productCategories st1 ++ association_rows (newId env) ids |}
                  end).
  { unfold createProduct, bind, insert_products. rewrite Hfresh. fold row. fold st1.
    cbn [id row]. destruct ids as [|c cs]; [reflexivity|].
    unfold insert_productCategories, check_insert.
    assert (Hfkok : forallb
              (fun a => has_product st1 (productId a) && has_category st1 (Db.categoryId a))
              (association_rows (newId env) (c :: cs)) = true).
    { apply forallb_true. intros a Ha. apply in_map_iff in Ha as [c' [<- Hc']].
      cbn [productId Db.categoryId]. apply andb_true_iff. split.
      - unfold has_product. cbn [products st1]. rewrite existsb_app. simpl.
        rewrite String.eqb_refl. apply orb_true_iff. right. reflexivity.
      - apply (Hcats c' Hc'). }
    rewrite Hfkok. cbn [negb].
    assert (Hu : u && negb (pairwise_distinct
                   (productCategories st1 ++ association_rows (newId env) (c :: cs)))
                 = false).
    { destruct u; [|reflexivity]. cbn [andb]. apply negb_false_iff.
      apply pairwise_distinct_app.
      - apply Huniq. reflexivity.
      - apply pairwise_distinct_rows. assumption.
      - intros a b Ha Hb. apply in_map_iff in Hb as [c' [<- Hc']].
        unfold same_pair. cbn [productId].
        rewrite Forall_forall in Hfk. specialize (Hfk a Ha).
        destruct (String.eqb (productId a) (newId env)) eqn:E; [|reflexivity].
        apply String.eqb_eq in E. congruence. }
    rewrite Hu. reflexivity. }
  unfold result. rewrite Hstep. unfold associations.
  destruct ids as [|c cs].
  - destruct (Hfind (productCategories st)) as [v Hv]. unfold st1. rewrite Hv.
    cbn [fst snd productCategories]. rewrite Hold, app_nil_r.
    split; [eauto | split; [reflexivity | split; [reflexivity | constructor]]].
  - cbn [products categories productCategories st1].
    destruct (Hfind (productCategories st ++ association_rows (newId env) (c :: cs)))
      as [v Hv].
    rewrite Hv. cbn [fst snd productCategories].
    rewrite filter_app, Hold, associations_rows_self. cbn [app].
    split; [eauto | split; [reflexivity | split; [reflexivity | assumption]]].
Qed.

Lemma createProduct_distinct_ids_one_row_each_witness :
  associations
    (snd (createProduct true Sample.env Sample.gizmo ["c1"; "c2"] Sample.store)) "p3"
  = [Sample.link "p3" "c1"; Sample.link "p3" "c2"].
Proof.
  apply (createProduct_distinct_ids_one_row_each true Sample.env Sample.gizmo
           ["c1"; "c2"] Sample.store).
  - split; [repeat constructor | reflexivity].
  - reflexivity.
  - repeat constructor; simpl; intuition discriminate.
  - intros c [<-|[<-|[]]]; reflexivity.
Defined.

(** C8, as stated, fails on a list that repeats an id. With the composite
    uniqueness declared the insert is refused: the create fails, and the new
    product row stays without any association. Without it the create
    succeeds and stores the pair twice. *)
Lemma createProduct_repeated_id_fails_or_repeats :
  let declared := createProduct true Sample.env Sample.gizmo ["c1"; "c1"] Sample.store in
  let undeclared := createProduct false Sample.env Sample.gizmo ["c1"; "c1"] Sample.store in
  (fst declared = Throw UniqueViolation
   /\ has_product (snd declared) "p3" = true
   /\ associations (snd declared) "p3" = [])
  /\ ((exists v, fst undeclared = Ok v)
      /\ associations (snd undeclared) "p3"
         = [Sample.link "p3" "c1"; Sample.link "p3" "c1"]).
Proof.
  vm_compute. split; [repeat split|]. split; [eexists|]; reflexivity.
Qed.

Lemma delete_absent_unchanged st pid :
  has_product st pid = false -> deleteProduct pid st = (Ok tt, st).
Proof.
  intros H. unfold deleteProduct, delete_products.
  pose proof (has_product_false st pid H) as Hno.
  rewrite (filter_none (fun p => String.eqb (id p) pid) (products st)) by assumption.
  rewrite (filter_all (fun p => negb (String.eqb (id p) pid)) (products st))
    by (intros p Hp; rewrite (Hno p Hp); reflexivity).
  unfold cascade.
  rewrite (filter_all _ (productCategories st)) by reflexivity.
  now rewrite store_eta.
Qed.

(** C10. Deleting an id that names no product row succeeds, leaves the store
    as it was, and the DELETE handler answers 204, as it does for every id. *)
Theorem deleteProduct_absent_id_is_a_no_op :
  forall (st : Store) (pid : string),
    has_product st pid = false ->
    deleteProduct pid st = (Ok tt, st)
    /\ delete_product pid st = (Empty 204, st)
    /\ (forall st' pid', status_of (fst (delete_product pid' st')) = 204).
Proof.
  intros st pid H. split; [|split].
  - now apply delete_absent_unchanged.
  - unfold delete_product. now rewrite delete_absent_unchanged.
  - reflexivity.
Qed.

Lemma deleteProduct_absent_id_is_a_no_op_witness :
  has_product Sample.store "p7" = false
  /\ delete_product "p7" Sample.store = (Empty 204, Sample.store).
Proof.
  split; [reflexivity|].
  apply (deleteProduct_absent_id_is_a_no_op Sample.store "p7"). reflexivity.
Defined.

End WritePath.

(* ===================================================================== *)
(** * Properties of the read path *)
(* ===================================================================== *)

Section ReadPath.
Import Db Storage Routes Props.
Local Open Scope list_scope.

Lemma where_and_nil rows : where_and [] rows = rows.
Proof. unfold where_and. apply filter_all. reflexivity. Qed.

Lemma filtered_rows_eq st params :
  filtered_rows st params =
  where_and (conditions params)
    (if joins_categories params then from_products_join st else from_products st).
Proof.
  unfold filtered_rows. destruct (conditions params) eqn:E; [|reflexivity].
  now rewrite where_and_nil.
Qed.

Lemma categoriesToFilter_nonempty params : categoriesToFilter params <> Some [].
Proof.
  unfold categoriesToFilter.
  destruct (categoryIds params) as [[|c cs]|]; try discriminate;
    destruct (Storage.categoryId params) as [c|]; try discriminate;
    destruct (JS.nonempty c); discriminate.
Qed.

Lemma forallb_optional (o : option JS.number) (f : JS.number -> Condition) (r : Row) :
  forallb (fun c => holds c r) (optional o f) =
  match o with Some x => holds (f x) r | None => true end.
Proof. destruct o; simpl; [apply andb_true_r | reflexivity]. Qed.

Lemma conditions_hold params p pc :
  forallb (fun c => holds c (p, pc)) (conditions params) =
  satisfies_attributes params p
  && match categoriesToFilter params with
     | Some cs => in_set cs pc
     | None => true
     end.
Proof.
  unfold conditions, satisfies_attributes.
  rewrite !forallb_app, !forallb_optional, <- !andb_assoc.
  apply (f_equal2 andb).
  { destruct (search params) as [s|]; [|reflexivity].
    destruct (JS.nonempty s); [|reflexivity]. simpl. apply andb_true_r. }
  do 4 (apply (f_equal2 andb); [reflexivity|]).
  pose proof (categoriesToFilter_nonempty params) as Hne.
  destruct (categoriesToFilter params) as [[|c [|c' cs]]|]; simpl;
    try congruence; try reflexivity.
  - destruct pc; simpl; [|reflexivity]. now rewrite andb_true_r, orb_false_r.
  - destruct pc; simpl; [|reflexivity]. now rewrite andb_true_r.
Qed.


Lemma in_from_products st p pc :
  In (p, pc) (from_products st) <-> In p (products st) /\ pc = None.
Proof.
  unfold from_products. rewrite in_map_iff. split.
  - intros [q [E Hq]]. inversion E; subst. auto.
  - intros [Hp ->]. now exists p.
Qed.

Lemma in_from_products_join st p pc :
  In (p, pc) (from_products_join st) <->
  In p (products st)
  /\ exists a, pc = Some a /\ In a (productCategories st)
               /\ String.eqb (id p) (productId a) = true.
Proof.
  unfold from_products_join. rewrite in_flat_map. split.
  - intros [q [Hq Hin]]. apply in_map_iff in Hin as [a [E Ha]].
    inversion E; subst. apply filter_In in Ha as [Ha Hid]. eauto 6.
  - intros [Hp [a [-> [Ha Hid]]]]. exists p. split; [assumption|].
    apply in_map_iff. exists a. split; [reflexivity|].
    apply filter_In. auto.
Qed.

Lemma member_of_iff st cs p :
  member_of st cs p = true <->
  exists a, In a (productCategories st) /\ productId a = id p
            /\ In (Db.categoryId a) cs.
Proof.
  unfold member_of. rewrite existsb_exists. split.
  - intros [a [Ha H]]. apply andb_true_iff in H as [Hid Hc].
    apply String.eqb_eq in Hid. apply existsb_exists in Hc as [c [Hc E]].
    apply String.eqb_eq in E. subst c. exists a. auto.
  - intros [a [Ha [Hid Hc]]]. exists a. split; [assumption|].
    apply andb_true_iff. split.
    + apply String.eqb_eq. auto.
    + apply existsb_exists. exists (Db.categoryId a). split; [assumption|].
      apply String.eqb_refl.
Qed.

Lemma joins_categories_iff params :
  joins_categories params = true <-> exists cs, categoriesToFilter params = Some cs.
Proof.
  unfold joins_categories. pose proof (categoriesToFilter_nonempty params) as Hne.
  destruct (categoriesToFilter params) as [[|c cs]|]; split; intros H;
    try congruence; try reflexivity; eauto.
  destruct H; discriminate.
Qed.

(** The rows the two queries range over are the products that satisfy the
    filter-set, each as often as it has a qualifying association row. *)
Lemma selected_iff st params p :
  In p (selected st params) <-> In p (products st) /\ satisfies st params p = true.
Proof.
  unfold selected, satisfies. rewrite filtered_rows_eq. unfold where_and.
  rewrite in_map_iff.
  pose proof (joins_categories_iff params) as Hj.
  destruct (categoriesToFilter params) as [cs|] eqn:Hc.
  - assert (Hjoin : joins_categories params = true) by (apply Hj; eauto).
    rewrite Hjoin. split.
    + intros [[q pc] [E Hin]]. simpl in E. subst q.
      apply filter_In in Hin as [Hin Hhold].
      rewrite conditions_hold, Hc in Hhold.
      apply andb_true_iff in Hhold as [Hattr Hset].
      apply in_from_products_join in Hin as [Hp [a [-> [Ha Hid]]]].
      split; [assumption|]. rewrite Hattr. simpl.
      apply member_of_iff. exists a. simpl in Hset.
      apply String.eqb_eq in Hid. apply existsb_exists in Hset as [c [Hcin E]].
      apply String.eqb_eq in E. subst c. auto.
    + intros [Hp H]. apply andb_true_iff in H as [Hattr Hmem].
      apply member_of_iff in Hmem as [a [Ha [Hid Hcin]]].
      exists (p, Some a). split; [reflexivity|].
      apply filter_In. split.
      * apply in_from_products_join. split; [assumption|].
        exists a. repeat split; try assumption. apply String.eqb_eq. auto.
      * rewrite conditions_hold, Hc, Hattr. simpl.
        apply existsb_exists. exists (Db.categoryId a). split; [assumption|].
        apply String.eqb_refl.
  - assert (Hjoin : joins_categories params = false).
    { unfold joins_categories. now rewrite Hc. }
    rewrite Hjoin. split.
    + intros [[q pc] [E Hin]]. simpl in E. subst q.
      apply filter_In in Hin as [Hin Hhold].
      rewrite conditions_hold, Hc in Hhold.
      apply in_from_products in Hin as [Hp _]. auto.
    + intros [Hp H]. exists (p, None). split; [reflexivity|].
      apply filter_In. split.
      * apply in_from_products. auto.
      * now rewrite conditions_hold, Hc.
Qed.

(** C7. A non-empty [categoryIds] is the set filtered on, whatever
    [categoryId] is; with [categoryIds] empty or absent, a present
    [categoryId] is the set; and a product is selected exactly when it
    satisfies the attribute conditions and has an association row whose
    category is in the chosen set. *)
Theorem category_filter_uses_chosen_set :
  forall (st : Store) (params : ProductsParams),
    (forall c cs, categoryIds params = Some (c :: cs) ->
                  categoriesToFilter params = Some (c :: cs))
    /\ (forall c, categoryIds params = None \/ categoryIds params = Some [] ->
                  Storage.categoryId params = Some c -> c <> "" ->
                  categoriesToFilter params = Some [c])
    /\ (forall chosen p,
           categoriesToFilter params = Some chosen ->
           (In p (selected st params) <->
            In p (products st)
            /\ satisfies_attributes params p = true
            /\ exists a, In a (productCategories st)
                         /\ productId a = id p
                         /\ In (Db.categoryId a) chosen)).
Proof.
  intros st params. split; [|split].
  - intros c cs H. unfold categoriesToFilter. now rewrite H.
  - intros c H Hc Hne. unfold categoriesToFilter.
    assert (E : JS.nonempty c = true) by (destruct c; [congruence | reflexivity]).
    destruct H as [-> | ->]; now rewrite Hc, E.
  - intros chosen p Hchosen. rewrite selected_iff. unfold satisfies.
    rewrite Hchosen, andb_true_iff, member_of_iff. tauto.
Qed.

Lemma category_filter_uses_chosen_set_witness :
  categoriesToFilter Sample.both_categories = Some ["c2"]
  /\ In Sample.gadget (selected Sample.store Sample.both_categories).
Proof.
  destruct (category_filter_uses_chosen_set Sample.store Sample.both_categories)
    as [Hplural [_ Hmember]].
  split.
  - apply Hplural. reflexivity.
  - apply (Hmember ["c2"] Sample.gadget); [reflexivity|].
    split; [simpl; auto|]. split; [reflexivity|].
    exists (Sample.link "p2" "c2"). simpl. auto.
Defined.


Lemma NoDup_map_filter {A B} (f : A -> B) (g : A -> bool) (l : list A) :
  NoDup (map f l) -> NoDup (map f (filter g l)).
Proof.
  induction l as [|a l IH]; simpl; intros H; [constructor|].
  inversion H as [|x xs Hx Hxs]; subst.
  destruct (g a); simpl; [|auto].
  constructor; [|auto].
  intros Hin. apply Hx. apply in_map_iff in Hin as [b [E Hb]].
  apply filter_In in Hb as [Hb _]. rewrite <- E. now apply in_map.
Qed.

(** The total is the number of products that satisfy the filter-set: the
    join does not inflate it. *)
Lemma total_counts_satisfying_products st params :
  NoDup (map id (products st)) ->
  count_distinct_id (filtered_rows st params)
  = Z.of_nat (List.length (filter (satisfies st params) (products st))).
Proof.
  intros Hnd. unfold count_distinct_id. f_equal.
  rewrite <- (length_map id (filter (satisfies st params) (products st))).
  apply Permutation_length, NoDup_Permutation.
  - apply NoDup_nodup.
  - now apply NoDup_map_filter.
  - intros x. rewrite nodup_In, <- (map_map fst id), !in_map_iff.
    fold (selected st params). split.
    + intros [p [E Hp]]. apply selected_iff in Hp as [Hp Hs].
      exists p. split; [assumption|]. apply filter_In. auto.
    + intros [p [E Hp]]. apply filter_In in Hp as [Hp Hs].
      exists p. split; [assumption|]. apply selected_iff. auto.
Qed.

Lemma getProducts_total st params result st' :
  NoDup (map id (products st)) ->
  getProducts params st = (Ok result, st') ->
  total result = Z.of_nat (List.length (filter (satisfies st params) (products st))).
Proof.
  intros Hnd H. unfold getProducts in H.
  destruct (sortColumn (sortBy_of params)); [|discriminate].
  destruct (negb _); [discriminate|].
  destruct (limit_offset _ _ _); [|discriminate].
  inversion H; subst. simpl. now apply total_counts_satisfying_products.
Qed.

(** C1 at the catalogue of two products, filtered on both categories: the
    total is 2, the number of products in one of the categories, but the
    page has three rows, Gadget being returned once per category it is in. *)
Theorem getProducts_join_returns_product_twice :
  exists body,
    get_products (with_categoryIds (QString "c1,c2") Sample.bare) Sample.store
    = (Products 200 body, Sample.store)
    /\ Sample.ids (result_products body) = ["p1"; "p2"; "p2"]
    /\ total body = 2
    /\ ~ NoDup (Sample.ids (result_products body)).
Proof.
  eexists. split; [vm_compute; reflexivity|].
  split; [reflexivity|]. split; [reflexivity|].
  simpl. intros H. inversion H as [|x l Hx Hl]; subst.
  inversion Hl as [|y l' Hy Hl']; subst. apply Hy. now left.
Qed.


(** ** Ordering *)

Lemma string_leb_trans (a b c : string) :
  String.leb a b = true -> String.leb b c = true -> String.leb a c = true.
Proof.
  unfold String.leb. revert b c.
  induction a as [|x a IH]; intros [|y b] [|z c]; simpl; try easy.
  unfold Ascii.compare.
  destruct (N.compare_spec (N_of_ascii x) (N_of_ascii y)),
           (N.compare_spec (N_of_ascii y) (N_of_ascii z)),
           (N.compare_spec (N_of_ascii x) (N_of_ascii z));
    try easy; try lia.
  apply IH.
Qed.

Lemma Qle_bool_total (a b : Q) : Qle_bool a b = true \/ Qle_bool b a = true.
Proof.
  rewrite !Qle_bool_iff. destruct (Qlt_le_dec a b) as [H|H]; [left|right].
  - now apply Qlt_le_weak.
  - assumption.
Qed.

Lemma Qle_bool_trans (a b c : Q) :
  Qle_bool a b = true -> Qle_bool b c = true -> Qle_bool a c = true.
Proof. rewrite !Qle_bool_iff. apply Qle_trans. Qed.

Lemma column_leb_total c a b :
  column_leb c a b = true \/ column_leb c b a = true.
Proof.
  destruct c; simpl.
  - apply String.leb_total.
  - apply Qle_bool_total.
  - rewrite !Z.leb_le. lia.
  - rewrite !Z.leb_le. lia.
  - now left.
Qed.

Lemma column_leb_trans c a b d :
  column_leb c a b = true -> column_leb c b d = true -> column_leb c a d = true.
Proof.
  destruct c; simpl.
  - apply string_leb_trans.
  - apply Qle_bool_trans.
  - rewrite !Z.leb_le. lia.
  - rewrite !Z.leb_le. lia.
  - reflexivity.
Qed.

Lemma Qred_eq_Qeq (a b : Q) : Qred a = Qred b -> a == b.
Proof. intros H. now rewrite <- (Qred_correct a), <- (Qred_correct b), H. Qed.

(** Rows that compare equal both ways carry the same sort value. *)
Lemma column_leb_antisym c a b :
  column_leb c a b = true -> column_leb c b a = true ->
  column_value c a = column_value c b.
Proof.
  destruct c; simpl.
  - intros H1 H2. f_equal. now apply String.leb_antisym.
  - rewrite !Qle_bool_iff. intros H1 H2. f_equal.
    apply Qred_complete. now apply Qle_antisym.
  - rewrite !Z.leb_le. intros. f_equal. lia.
  - rewrite !Z.leb_le. intros. f_equal. lia.
  - reflexivity.
Qed.

(** The comparison looks at the sort values only. *)
Lemma column_leb_value c a a' b b' :
  column_value c a = column_value c a' ->
  column_value c b = column_value c b' ->
  column_leb c a b = column_leb c a' b'.
Proof.
  destruct c; simpl; intros Ha Hb; inversion Ha; inversion Hb; try congruence.
  apply Qred_eq_Qeq in H0, H1.
  destruct (Qle_bool (price a) (price b)) eqn:E1,
           (Qle_bool (price a') (price b')) eqn:E2; try reflexivity.
  - rewrite Qle_bool_iff in E1. rewrite H0, H1 in E1.
    apply Qle_bool_iff in E1. congruence.
  - rewrite Qle_bool_iff in E2. rewrite <- H0, <- H1 in E2.
    apply Qle_bool_iff in E2. congruence.
Qed.

Section Sorting.

Variable A : Type.
Variable leb : A -> A -> bool.
Hypothesis leb_total : forall a b, leb a b = true \/ leb b a = true.
Hypothesis leb_trans : forall a b c, leb a b = true -> leb b c = true -> leb a c = true.

Let le (a b : A) : Prop := leb a b = true.

Lemma insert_sorted_perm x l : Permutation (x :: l) (insert_sorted leb x l).
Proof.
  induction l as [|y l IH]; simpl; [reflexivity|].
  destruct (leb x y); [reflexivity|].
  rewrite perm_swap. now constructor.
Qed.

Lemma orderBy_perm l : Permutation l (orderBy leb l).
Proof.
  induction l as [|x l IH]; simpl; [constructor|].
  rewrite <- insert_sorted_perm. now constructor.
Qed.

Lemma insert_sorted_sorted x l :
  StronglySorted le l -> StronglySorted le (insert_sorted leb x l).
Proof.
  induction 1 as [|y l Hl IH Hy]; simpl.
  - repeat constructor.
  - destruct (leb x y) eqn:E.
    + constructor; [now constructor|]. constructor; [exact E|].
      rewrite Forall_forall in *. intros z Hz. eapply leb_trans; [exact E|]. now apply Hy.
    + constructor; [assumption|].
      assert (Hyx : le y x) by (destruct (leb_total x y); [congruence | assumption]).
      rewrite Forall_forall in *. intros z Hz.
      apply (Permutation_in z (Permutation_sym (insert_sorted_perm x l))) in Hz.
      destruct Hz as [<- | Hz]; [assumption | now apply Hy].
Qed.

Lemma orderBy_sorted l : StronglySorted le (orderBy leb l).
Proof.
  induction l as [|x l IH]; simpl; [constructor|]. now apply insert_sorted_sorted.
Qed.

Lemma sorted_skipn n l : StronglySorted le l -> StronglySorted le (skipn n l).
Proof.
  revert l. induction n as [|n IH]; intros l H; [assumption|].
  destruct l as [|x l]; [constructor|]. simpl. apply IH. now inversion H.
Qed.

Lemma sorted_firstn n l : StronglySorted le l -> StronglySorted le (firstn n l).
Proof.
  revert l. induction n as [|n IH]; intros l H; [constructor|].
  destruct l as [|x l]; [constructor|]. simpl. inversion H as [|y l' Hl Hx]; subst.
  constructor; [now apply IH|].
  rewrite Forall_forall in *. intros z Hz. apply Hx.
  rewrite <- (firstn_skipn n l). apply in_or_app. now left.
Qed.

Variable V : Type.
Variable key : A -> V.
Hypothesis leb_antisym : forall a b, leb a b = true -> leb b a = true -> key a = key b.
Hypothesis leb_key :
  forall a a' b b', key a = key a' -> key b = key b' -> leb a b = leb a' b'.

(** Two ordered arrangements of the same rows show the same sequence of
    sort values. *)
Lemma sorted_keys_unique l1 l2 :
  StronglySorted le l1 -> StronglySorted le l2 ->
  Permutation (map key l1) (map key l2) ->
  map key l1 = map key l2.
Proof.
  revert l2. induction l1 as [|a l1 IH]; intros l2 H1 H2 HP.
  - apply Permutation_nil in HP. now rewrite HP.
  - destruct l2 as [|b l2].
    { apply Permutation_sym, Permutation_nil in HP. discriminate. }
    inversion H1 as [|? ? Hs1 Ha]; subst. inversion H2 as [|? ? Hs2 Hb]; subst.
    rewrite Forall_forall in Ha, Hb.
    assert (Hk : key a = key b).
    { assert (Hin_b : In (key b) (map key (a :: l1)))
        by (apply (Permutation_in _ (Permutation_sym HP)); now left).
      assert (Hin_a : In (key a) (map key (b :: l2)))
        by (apply (Permutation_in _ HP); now left).
      simpl in Hin_a, Hin_b.
      destruct Hin_b as [E | Hin_b]; [assumption|].
      destruct Hin_a as [E | Hin_a]; [now symmetry|].
      apply in_map_iff in Hin_b as [b' [Eb Hb']].
      apply in_map_iff in Hin_a as [a' [Ea Ha']].
      apply leb_antisym.
      - rewrite (leb_key a a b b' eq_refl (eq_sym Eb)). now apply Ha.
      - rewrite (leb_key b b a a' eq_refl (eq_sym Ea)). now apply Hb. }
    simpl. rewrite Hk. f_equal. apply IH; try assumption.
    simpl in HP. rewrite Hk in HP. now apply Permutation_cons_inv in HP.
Qed.

End Sorting.

Lemma order_leb_total d c a b :
  order_leb d c a b = true \/ order_leb d c b a = true.
Proof. destruct d; simpl; apply column_leb_total. Qed.

Lemma order_leb_trans d c a b e :
  order_leb d c a b = true -> order_leb d c b e = true -> order_leb d c a e = true.
Proof.
  destruct d; simpl; intros H1 H2.
  - eapply column_leb_trans; eassumption.
  - eapply column_leb_trans; eassumption.
Qed.

Lemma order_leb_antisym d c a b :
  order_leb d c a b = true -> order_leb d c b a = true ->
  column_value c a = column_value c b.
Proof.
  destruct d; simpl; intros H1 H2.
  - now apply column_leb_antisym.
  - symmetry. now apply column_leb_antisym.
Qed.

Lemma order_leb_value d c a a' b b' :
  column_value c a = column_value c a' ->
  column_value c b = column_value c b' ->
  order_leb d c a b = order_leb d c a' b'.
Proof. destruct d; simpl; intros; now apply column_leb_value. Qed.

Lemma limit_offset_map {A B} (f : A -> B) l o (rows : list A) :
  limit_offset l o (map f rows) = option_map (map f) (limit_offset l o rows).
Proof.
  unfold limit_offset.
  destruct (JS.truthy o); [destruct (row_count o)|]; simpl;
    try reflexivity;
    (destruct (JS.ge l (JS.ofZ 0)); [destruct (row_count l)|]; simpl;
     rewrite ?skipn_map, ?firstn_map; reflexivity).
Qed.

(** A window is a run of consecutive rows. *)
Lemma limit_offset_window {A} l o (rows page : list A) :
  limit_offset l o rows = Some page ->
  exists n m, page = firstn n (skipn m rows).
Proof.
  unfold limit_offset. intros H.
  assert (Hall : forall rest : list A, rest = firstn (List.length rest) rest)
    by (intros rest; now rewrite firstn_all).
  destruct (JS.truthy o); [destruct (row_count o) as [oz|]|]; simpl in H;
    try discriminate;
    (destruct (JS.ge l (JS.ofZ 0)); [destruct (row_count l) as [lz|]|];
     simpl in H; try discriminate; injection H as <-).
  - now exists (Z.to_nat lz), (Z.to_nat oz).
  - exists (List.length (skipn (Z.to_nat oz) rows)), (Z.to_nat oz). apply Hall.
  - now exists (Z.to_nat lz), 0%nat.
  - exists (List.length rows), 0%nat. apply Hall.
Qed.

Lemma limit_offset_sorted (leb : Product -> Product -> bool) l o rows page :
  ordered_by leb rows -> limit_offset l o rows = Some page -> ordered_by leb page.
Proof.
  unfold ordered_by. intros Hs H.
  apply limit_offset_window in H as [n [m ->]].
  now apply sorted_firstn, sorted_skipn.
Qed.

(** What [getProducts] returns is one of the executions. *)
Lemma getProducts_is_execution st params result st' :
  getProducts params st = (Ok result, st') ->
  execution st params (map product (result_products result)).
Proof.
  unfold getProducts, execution. intros H.
  destruct (sortColumn (sortBy_of params)) as [column|]; [|discriminate].
  destruct (negb _); [discriminate|].
  destruct (limit_offset _ _ _) as [rows|] eqn:Hw; [|discriminate].
  injection H as <- <-. simpl.
  exists column, (orderBy (order_leb (direction (sortOrder_of params)) column)
                    (selected st params)).
  split; [reflexivity|]. split; [apply orderBy_perm|]. split.
  - apply orderBy_sorted.
    + apply order_leb_total.
    + apply order_leb_trans.
  - rewrite map_map. simpl. now rewrite map_id.
Qed.

(** C9, as the code has it. The query orders by the sort column alone. Every
    execution returns its rows ordered by that column in the requested
    direction, and any two executions return the same sequence of sort
    values; which of several rows with the same sort value comes first is
    not fixed. *)
Theorem executions_agree_on_sort_values :
  forall (st : Store) (params : ProductsParams) (column : Column)
         (rows1 rows2 : list Product),
    sortColumn (sortBy_of params) = Some column ->
    execution st params rows1 ->
    execution st params rows2 ->
    ordered_by (order_leb (direction (sortOrder_of params)) column) rows1
    /\ ordered_by (order_leb (direction (sortOrder_of params)) column) rows2
    /\ map (column_value column) rows1 = map (column_value column) rows2.
Proof.
  intros st params column rows1 rows2 Hcol
    [c1 [o1 [Hc1 [Hp1 [Hs1 Hw1]]]]] [c2 [o2 [Hc2 [Hp2 [Hs2 Hw2]]]]].
  rewrite Hcol in Hc1, Hc2. inversion Hc1; inversion Hc2; subst c1 c2.
  split; [exact (limit_offset_sorted _ _ _ _ _ Hs1 Hw1)|].
  split; [exact (limit_offset_sorted _ _ _ _ _ Hs2 Hw2)|].
  assert (Hk : map (column_value column) o1 = map (column_value column) o2).
  { apply (sorted_keys_unique Product
             (order_leb (direction (sortOrder_of params)) column)
             SortValue (column_value column)).
    - apply order_leb_antisym.
    - intros. now apply order_leb_value.
    - assumption.
    - assumption.
    - apply Permutation_map. now rewrite <- Hp1, <- Hp2. }
  pose proof (limit_offset_map (column_value column)
                (limit_of params) (offset_of params) o1) as E1.
  pose proof (limit_offset_map (column_value column)
                (limit_of params) (offset_of params) o2) as E2.
  rewrite Hw1 in E1. rewrite Hw2 in E2. rewrite Hk in E1. rewrite E1 in E2.
  simpl in E2. now inversion E2.
Qed.

Lemma bare_execution_forward :
  execution Sample.store Sample.defaults [Sample.widget; Sample.gadget].
Proof.
  exists ColCreatedAt, [Sample.widget; Sample.gadget].
  split; [reflexivity|]. split; [reflexivity|]. split.
  - repeat constructor.
  - reflexivity.
Qed.

Lemma bare_execution_backward :
  execution Sample.store Sample.defaults [Sample.gadget; Sample.widget].
Proof.
  exists ColCreatedAt, [Sample.gadget; Sample.widget].
  split; [reflexivity|]. split; [apply perm_swap|]. split.
  - repeat constructor.
  - reflexivity.
Qed.

Lemma executions_agree_on_sort_values_witness :
  map (column_value ColCreatedAt) [Sample.widget; Sample.gadget]
  = map (column_value ColCreatedAt) [Sample.gadget; Sample.widget].
Proof.
  apply (executions_agree_on_sort_values Sample.store Sample.defaults ColCreatedAt
           [Sample.widget; Sample.gadget] [Sample.gadget; Sample.widget]).
  - reflexivity.
  - exact bare_execution_forward.
  - exact bare_execution_backward.
Defined.

(** C9, as stated, fails: Widget and Gadget were created at the same time,
    so the default listing, newest first, may return them in either order. *)
Lemma tied_rows_have_two_executions :
  ~ (forall rows1 rows2,
        execution Sample.store Sample.defaults rows1 ->
        execution Sample.store Sample.defaults rows2 ->
        rows1 = rows2).
Proof.
  intros H.
  specialize (H _ _ bare_execution_forward bare_execution_backward).
  discriminate.
Qed.

End ReadPath.

(* ===================================================================== *)
(** * Properties of the GET handler: parameters *)
(* ===================================================================== *)

Section Handler.
Import Db Storage Routes Props.
Local Open Scope list_scope.

Lemma string_or_not_asc so :
  so <> "asc" -> direction (string_or (Some so) "desc") = Desc.
Proof.
  intros H. unfold string_or. destruct (JS.nonempty so); [|reflexivity].
  unfold direction. destruct (String.eqb so "asc") eqn:E; [|reflexivity].
  apply String.eqb_eq in E. contradiction.
Qed.

(** [getProducts] reads the sort order through [direction] only. *)
Lemma get_products_direction q st sb so1 so2 :
  direction (string_or so1 "desc") = direction (string_or so2 "desc") ->
  get_products (with_sort sb so1 q) st
  = get_products (with_sort sb so2 q) st.
Proof.
  intros H. unfold get_products, getProducts.
  unfold sortOrder_of, sortBy_of, selected, filtered_rows, conditions,
    joins_categories, categoriesToFilter, limit_of, offset_of, page_of, limit_of.
  cbn [params_of with_sort page limit search Storage.categoryId categoryIds
       minPrice maxPrice minStock maxStock sortBy sortOrder
       q_page q_limit q_search q_categoryId q_categoryIds q_minPrice q_maxPrice
       q_minStock q_maxStock q_sortBy q_sortOrder default].
  now rewrite H.
Qed.

(** The handler reads the two sort parameters through [string_or] only. *)
Lemma get_products_sort q st sb1 so1 sb2 so2 :
  string_or sb1 "createdAt" = string_or sb2 "createdAt" ->
  string_or so1 "desc" = string_or so2 "desc" ->
  get_products (with_sort sb1 so1 q) st = get_products (with_sort sb2 so2 q) st.
Proof.
  intros Hb Ho. unfold get_products, params_of.
  cbn [with_sort q_page q_limit q_search q_categoryId q_categoryIds q_minPrice
       q_maxPrice q_minStock q_maxStock q_sortBy q_sortOrder].
  now rewrite Hb, Ho.
Qed.

Lemma get_products_status q st :
  status_of (fst (get_products q st)) = 400 <->
  validate_ranges (minPrice (params_of q)) (maxPrice (params_of q))
    (minStock (params_of q)) (maxStock (params_of q)) <> None.
Proof.
  unfold get_products.
  destruct (validate_ranges _ _ _ _) as [m|].
  - simpl. split; [discriminate | reflexivity].
  - destruct (getProducts (params_of q) st) as [[r|e] st']; simpl;
      split; intros H; try discriminate; congruence.
Qed.

Lemma sortColumn_nonempty sb column :
  sortColumn sb = Some column -> string_or (Some sb) "createdAt" = sb.
Proof. destruct sb; [discriminate | reflexivity]. Qed.

(** A listing that is served is ordered by the column [sortBy] names, in
    the direction [sortOrder] names. *)
Lemma get_products_ordered q st sb so column body st' :
  sortColumn sb = Some column ->
  so <> "" ->
  get_products (with_sort (Some sb) (Some so) q) st = (Products 200 body, st') ->
  ordered_by (order_leb (direction so) column) (map product (result_products body)).
Proof.
  intros Hcol Hso H. unfold get_products in H.
  destruct (validate_ranges _ _ _ _); [discriminate|].
  destruct (getProducts _ st) as [[result|e] st''] eqn:Hg; [|discriminate].
  injection H as <- <-.
  apply getProducts_is_execution in Hg as [c [ordered [Hc [_ [Hs Hw]]]]].
  assert (Eb : sortBy_of (params_of (with_sort (Some sb) (Some so) q)) = sb)
    by (exact (sortColumn_nonempty sb column Hcol)).
  assert (Eo : sortOrder_of (params_of (with_sort (Some sb) (Some so) q)) = so)
    by (destruct so; [congruence | reflexivity]).
  rewrite Eb in Hc. rewrite Eo in Hs. rewrite Hcol in Hc. injection Hc as <-.
  exact (limit_offset_sorted _ _ _ _ _ Hs Hw).
Qed.

(** C4, as the code has it. The sort parameters are not validated. Each of
    the two has its default, whatever the other is: a [sortBy] that is
    absent or empty stands for [createdAt], a [sortOrder] that is absent or
    empty stands for [desc]. Every order other than [asc] sorts as [desc]
    does; a listing that is served is in ascending order of the named
    column under [asc] and in descending order under [desc]; and no value
    of the two makes the handler answer 400, or keeps it from doing so. *)
Theorem sort_parameters_default_and_pass_unchecked :
  forall (q : Query) (st : Store),
    (forall so,
       get_products (with_sort None so q) st
       = get_products (with_sort (Some "createdAt") so q) st
       /\ get_products (with_sort (Some "") so q) st
          = get_products (with_sort (Some "createdAt") so q) st)
    /\ (forall sb,
          get_products (with_sort sb None q) st
          = get_products (with_sort sb (Some "desc") q) st
          /\ get_products (with_sort sb (Some "") q) st
             = get_products (with_sort sb (Some "desc") q) st)
    /\ (forall sb so, so <> "asc" ->
          get_products (with_sort sb (Some so) q) st
          = get_products (with_sort sb (Some "desc") q) st)
    /\ (forall sb column body st',
          sortColumn sb = Some column ->
          (get_products (with_sort (Some sb) (Some "asc") q) st
           = (Products 200 body, st') ->
           ordered_by (fun a b => column_leb column a b)
             (map product (result_products body)))
          /\ (get_products (with_sort (Some sb) (Some "desc") q) st
              = (Products 200 body, st') ->
              ordered_by (fun a b => column_leb column b a)
                (map product (result_products body))))
    /\ (forall sb so,
          status_of (fst (get_products (with_sort sb so q) st)) = 400
          <-> status_of (fst (get_products q st)) = 400).
Proof.
  intros q st. split; [|split; [|split; [|split]]].
  - intros so. split; now apply get_products_sort.
  - intros sb. split; now apply get_products_sort.
  - intros sb so Hso. apply get_products_direction.
    now rewrite string_or_not_asc.
  - intros sb column body st' Hcol. split; intros H.
    + apply (get_products_ordered q st sb "asc" column body st' Hcol); [discriminate|].
      exact H.
    + apply (get_products_ordered q st sb "desc" column body st' Hcol); [discriminate|].
      exact H.
  - intros sb so. rewrite !get_products_status. reflexivity.
Qed.

Lemma sort_parameters_default_and_pass_unchecked_witness :
  "sideways" <> "asc"
  /\ get_products (with_sort (Some "price") (Some "sideways") Sample.bare) Sample.store
     = get_products (with_sort (Some "price") (Some "desc") Sample.bare) Sample.store.
Proof.
  split; [discriminate|].
  apply (sort_parameters_default_and_pass_unchecked Sample.bare Sample.store).
  discriminate.
Defined.

(** C4, as stated, fails: an order that is neither [asc] nor [desc] is not
    rejected; the listing is returned, sorted descending. *)
Lemma unknown_sortOrder_is_served :
  exists body,
    get_products (with_sort (Some "price") (Some "sideways") Sample.bare) Sample.store
    = (Products 200 body, Sample.store)
    /\ Sample.ids (result_products body) = ["p2"; "p1"].
Proof.
  eexists. split; [vm_compute; reflexivity | reflexivity].
Qed.


Lemma invalid_bound_iff v :
  invalid_bound v = true <->
  exists x, v = Some x /\ (JS.isNaN x = true \/ JS.lt x (JS.ofZ 0) = true).
Proof.
  unfold invalid_bound. destruct v as [x|].
  - rewrite orb_true_iff. split; [eauto|]. now intros [y [[= <-] H]].
  - split; [discriminate|]. now intros [y [[=] _]].
Qed.

(** The part of the range validation that the handler does carry out: a
    bound that parses to [NaN] or to a negative number, and a minimum above
    its maximum, are answered 400 before the storage layer is called. *)
Lemma range_checks_reject q st :
  let params := params_of q in
  invalid_bound (minPrice params) = true \/ invalid_bound (maxPrice params) = true
  \/ invalid_bound (minStock params) = true \/ invalid_bound (maxStock params) = true
  \/ crossed (minPrice params) (maxPrice params) = true
  \/ crossed (minStock params) (maxStock params) = true ->
  exists message, get_products q st = (Message 400 message, st).
Proof.
  intros params H. unfold get_products. fold params. unfold validate_ranges.
  destruct (invalid_bound (minPrice params)); [eauto|].
  destruct (invalid_bound (maxPrice params)); [eauto|].
  destruct (crossed (minPrice params) (maxPrice params)); [eauto|].
  destruct (invalid_bound (minStock params)); [eauto|].
  destruct (invalid_bound (maxStock params)); [eauto|].
  destruct (crossed (minStock params) (maxStock params)); [eauto|].
  intuition discriminate.
Qed.

(** C5 at [minPrice=Infinity]: the bound parses to positive infinity, which
    is neither [NaN] nor negative; the request passes the checks, the query
    runs, and the answer is 200 with an empty page. *)
Theorem infinite_minPrice_is_not_rejected :
  JS.parseFloat "Infinity" = JS.Infinity false
  /\ validate_ranges (Some (JS.Infinity false)) None None None = None
  /\ get_products (with_minPrice "Infinity" Sample.bare) Sample.store
     = (Products 200 {| result_products := []; total := 0 |}, Sample.store).
Proof.
  repeat split; vm_compute; reflexivity.
Qed.

Lemma overflow_threshold_pos : 0 < JS.overflow_threshold.
Proof. apply Z.ltb_lt. vm_compute. reflexivity. Qed.

Lemma not_negative_ofQ q : (0 <= q)%Q -> not_negative (JS.ofQ q).
Proof.
  intros H. unfold JS.ofQ.
  destruct (Qle_bool (inject_Z JS.overflow_threshold) q); [reflexivity|].
  destruct (Qle_bool q (inject_Z (- JS.overflow_threshold))) eqn:E.
  - exfalso. apply Qle_bool_iff in E.
    assert (Hz : (inject_Z 0 <= inject_Z (- JS.overflow_threshold))%Q)
      by (eapply Qle_trans; [exact H | exact E]).
    rewrite <- Zle_Qle in Hz.
    pose proof overflow_threshold_pos. lia.
  - simpl. now rewrite Qred_correct.
Qed.

Lemma not_negative_lt x : not_negative x -> JS.lt x (JS.ofZ 0) = false.
Proof.
  destruct x as [|n|q]; simpl; intros H; [reflexivity | now rewrite H |].
  unfold JS.Qlt_bool. apply negb_false_iff, Qle_bool_iff. exact H.
Qed.

Lemma not_below_one x : JS.lt x (JS.ofZ 1) = false -> not_negative (JS.sub x (JS.ofZ 1)).
Proof.
  destruct x as [|n|q]; simpl; intros H; [exact I | exact H |].
  apply not_negative_ofQ. unfold JS.Qlt_bool in H.
  apply negb_false_iff, Qle_bool_iff in H.
  change (inject_Z 1) with 1%Q in *.
  apply (Qplus_le_l _ _ 1%Q). ring_simplify. exact H.
Qed.

Lemma not_below_one_positive x :
  JS.lt x (JS.ofZ 1) = false -> not_negative x /\ (forall q, x = JS.Fin q -> (0 < q)%Q).
Proof.
  destruct x as [|n|q]; simpl; intros H.
  - split; [exact I | discriminate].
  - split; [exact H | discriminate].
  - unfold JS.Qlt_bool in H. apply negb_false_iff, Qle_bool_iff in H.
    change (inject_Z 1) with 1%Q in H.
    assert (0 < q)%Q by (eapply Qlt_le_trans; [|exact H]; reflexivity).
    split; [now apply Qlt_le_weak|]. now intros ? [= <-].
Qed.

Lemma not_negative_mul x y :
  not_negative x -> not_negative y -> not_negative (JS.mul x y).
Proof.
  assert (Hneg : forall q, (0 <= q)%Q -> JS.Qneg_bool q = false).
  { intros q Hq. unfold JS.Qneg_bool, JS.Qlt_bool.
    now apply negb_false_iff, Qle_bool_iff. }
  destruct x as [|n|a], y as [|m|b]; simpl; intros Hx Hy; try exact I.
  - now subst.
  - destruct (Qeq_bool b 0); [exact I|]. simpl. now rewrite Hx, Hneg.
  - destruct (Qeq_bool a 0); [exact I|]. simpl. now rewrite Hy, Hneg.
  - apply not_negative_ofQ. now apply Qmult_le_0_compat.
Qed.

Lemma or_else_truthy x d : JS.truthy d = true -> JS.truthy (JS.or_else x d) = true.
Proof. unfold JS.or_else. destruct (JS.truthy x) eqn:E; auto. Qed.

(** C6, as the code has it. The page and the limit are the parsed values,
    replaced by 1 and 10 when the parameter is absent or parses to [NaN] or
    to 0; nothing raises them to a minimum. They are therefore never 0 nor
    [NaN], and the offset is not negative whenever neither is below 1. *)
Theorem page_and_limit_default_without_minimum :
  forall (q : Query),
    let params := params_of q in
    page_of params = JS.or_else (JS.parseInt (q_page q)) (JS.ofZ 1)
    /\ limit_of params = JS.or_else (JS.parseInt (q_limit q)) (JS.ofZ 10)
    /\ (q_page q = None -> page_of params = JS.ofZ 1)
    /\ (q_limit q = None -> limit_of params = JS.ofZ 10)
    /\ JS.truthy (page_of params) = true
    /\ JS.truthy (limit_of params) = true
    /\ (JS.lt (page_of params) (JS.ofZ 1) = false ->
        JS.lt (limit_of params) (JS.ofZ 1) = false ->
        JS.lt (offset_of params) (JS.ofZ 0) = false).
Proof.
  intros q params.
  split; [reflexivity|]. split; [reflexivity|].
  split; [intros H; unfold params, page_of; simpl; now rewrite H|].
  split; [intros H; unfold params, limit_of; simpl; now rewrite H|].
  split; [now apply or_else_truthy|]. split; [now apply or_else_truthy|].
  intros Hp Hl. apply not_negative_lt. unfold offset_of.
  apply not_negative_mul.
  - now apply not_below_one.
  - now apply not_below_one_positive.
Qed.

Lemma page_and_limit_default_without_minimum_witness :
  JS.lt (offset_of (params_of (with_page "3" Sample.bare))) (JS.ofZ 0) = false.
Proof.
  apply (page_and_limit_default_without_minimum (with_page "3" Sample.bare));
    vm_compute; reflexivity.
Defined.

(** C6, as stated, fails: [page=-5] is kept as -5, and the offset is -60. *)
Lemma negative_page_gives_negative_offset :
  let params := params_of (with_page "-5" Sample.bare) in
  page_of params = JS.ofZ (-5)
  /\ JS.lt (page_of params) (JS.ofZ 1) = true
  /\ offset_of params = JS.ofZ (-60)
  /\ JS.lt (offset_of params) (JS.ofZ 0) = true.
Proof.
  vm_compute. repeat split.
Qed.

End Handler.

(* ===================================================================== *)
(** * Further properties of the listing *)
(* ===================================================================== *)

Section Listing.
Import Db Storage Routes Props MoreProps.
Local Open Scope list_scope.

(** ** Integers as numbers *)

Lemma Qred_inject_Z (z : Z) : Qred (inject_Z z) = inject_Z z.
Proof.
  unfold Qred, inject_Z.
  pose proof (Z.ggcd_gcd z 1) as Hg.
  pose proof (Z.ggcd_correct_divisors z 1) as Hd.
  destruct (Z.ggcd z 1) as [g [a b]]. simpl in *.
  rewrite Z.gcd_1_r in Hg. subst g. destruct Hd as [Ha Hb].
  rewrite Z.mul_1_l in Ha, Hb. now subst.
Qed.

Lemma toInteger_iff (q : Q) (z : Z) :
  JS.toInteger (JS.Fin q) = Some z <-> q == inject_Z z.
Proof.
  unfold JS.toInteger. split.
  - destruct (Pos.eqb (Qden (Qred q)) 1) eqn:E; [|discriminate].
    intros [= <-]. apply Pos.eqb_eq in E.
    rewrite <- (Qred_correct q) at 1.
    destruct (Qred q) as [n d]. simpl in *. subst d. reflexivity.
  - intros H. apply Qred_complete in H. rewrite Qred_inject_Z in H.
    rewrite H. reflexivity.
Qed.

Lemma toInteger_ofZ (z : Z) : JS.toInteger (JS.ofZ z) = Some z.
Proof. apply toInteger_iff. reflexivity. Qed.

Lemma ofQ_Qeq (p q : Q) : p == q -> JS.ofQ p = JS.ofQ q.
Proof.
  intros H. unfold JS.ofQ.
  assert (E1 : Qle_bool (inject_Z JS.overflow_threshold) p
               = Qle_bool (inject_Z JS.overflow_threshold) q)
    by (now rewrite H).
  assert (E2 : Qle_bool p (inject_Z (- JS.overflow_threshold))
               = Qle_bool q (inject_Z (- JS.overflow_threshold)))
    by (now rewrite H).
  rewrite E1, E2, (Qred_complete _ _ H). reflexivity.
Qed.

Lemma safe_below_threshold : 2 ^ 53 * 2 ^ 53 < JS.overflow_threshold.
Proof. apply Z.ltb_lt. vm_compute. reflexivity. Qed.

Lemma ofQ_inject_Z (z : Z) :
  - JS.overflow_threshold < z < JS.overflow_threshold ->
  JS.ofQ (inject_Z z) = JS.ofZ z.
Proof.
  intros [Hlo Hhi]. unfold JS.ofQ, JS.ofZ.
  destruct (Qle_bool (inject_Z JS.overflow_threshold) (inject_Z z)) eqn:E1.
  { apply Qle_bool_iff in E1. rewrite <- Zle_Qle in E1. lia. }
  destruct (Qle_bool (inject_Z z) (inject_Z (- JS.overflow_threshold))) eqn:E2.
  { apply Qle_bool_iff in E2. rewrite <- Zle_Qle in E2. lia. }
  now rewrite Qred_inject_Z.
Qed.

Lemma sub_ofZ (a b : Z) :
  - JS.overflow_threshold < a - b < JS.overflow_threshold ->
  JS.sub (JS.ofZ a) (JS.ofZ b) = JS.ofZ (a - b).
Proof.
  intros H. simpl. rewrite <- (ofQ_inject_Z (a - b)) by assumption.
  apply ofQ_Qeq. unfold Z.sub. rewrite inject_Z_plus, inject_Z_opp. reflexivity.
Qed.

Lemma mul_ofZ (a b : Z) :
  - JS.overflow_threshold < a * b < JS.overflow_threshold ->
  JS.mul (JS.ofZ a) (JS.ofZ b) = JS.ofZ (a * b).
Proof.
  intros H. simpl. rewrite <- (ofQ_inject_Z (a * b)) by assumption.
  apply ofQ_Qeq. now rewrite inject_Z_mult.
Qed.

(** The offset of a window given by two exact integers. *)
Lemma offset_of_window page limit params :
  1 <= page -> 1 <= limit -> safe_integer page -> safe_integer limit ->
  offset_of (window page limit params) = JS.ofZ ((page - 1) * limit).
Proof.
  unfold safe_integer. intros Hp Hl Sp Sl.
  pose proof safe_below_threshold as Ht.
  assert (Hb : (page - 1) * limit < 2 ^ 53 * 2 ^ 53) by nia.
  unfold offset_of, page_of, limit_of, window.
  cbn [Storage.page Storage.limit default].
  rewrite sub_ofZ by lia. apply mul_ofZ. nia.
Qed.

Lemma truthy_ofZ (z : Z) : JS.truthy (JS.ofZ z) = negb (z =? 0).
Proof.
  unfold JS.truthy, JS.ofZ. f_equal.
  destruct (z =? 0) eqn:E.
  - apply Z.eqb_eq in E. now subst.
  - apply Z.eqb_neq in E.
    destruct (Qeq_bool (inject_Z z) 0) eqn:Q; [|reflexivity].
    apply Qeq_bool_iff in Q. change 0%Q with (inject_Z 0) in Q.
    rewrite inject_Z_injective in Q. lia.
Qed.

Lemma ge_ofZ (z : Z) : JS.ge (JS.ofZ z) (JS.ofZ 0) = (0 <=? z).
Proof.
  unfold JS.ge, JS.ofZ, JS.lt, JS.isNaN, JS.Qlt_bool. cbn [negb andb].
  rewrite negb_involutive.
  destruct (0 <=? z) eqn:E.
  - apply Qle_bool_iff. rewrite <- Zle_Qle. now apply Z.leb_le.
  - destruct (Qle_bool (inject_Z 0) (inject_Z z)) eqn:Q; [|reflexivity].
    apply Qle_bool_iff in Q. rewrite <- Zle_Qle in Q. apply Z.leb_gt in E. lia.
Qed.

Lemma safe_fits (z : Z) : safe_integer z -> z <= max_bigint.
Proof.
  unfold safe_integer. intros [_ H].
  assert (Hc : 2 ^ 53 <= max_bigint) by (apply Z.leb_le; vm_compute; reflexivity).
  lia.
Qed.

Lemma row_count_ofZ (z : Z) :
  0 <= z <= max_bigint -> row_count (JS.ofZ z) = Some z.
Proof.
  intros [H0 H1]. unfold row_count. rewrite toInteger_ofZ.
  destruct (0 <=? z) eqn:E1; [|lia]. destruct (z <=? max_bigint) eqn:E2; [|lia].
  reflexivity.
Qed.

Lemma limit_offset_integers {A} (l o : Z) (rows : list A) :
  0 <= l <= max_bigint -> 0 <= o <= max_bigint ->
  limit_offset (JS.ofZ l) (JS.ofZ o) rows
  = Some (firstn (Z.to_nat l) (skipn (Z.to_nat o) rows)).
Proof.
  intros Hl Ho. unfold limit_offset.
  rewrite truthy_ofZ, ge_ofZ, !row_count_ofZ by assumption.
  destruct (0 <=? l) eqn:E; [|lia].
  destruct (o =? 0) eqn:E0; cbn [negb option_map]; [|reflexivity].
  apply Z.eqb_eq in E0. now subst.
Qed.


(** ** The page *)

Lemma in_window {A} (n m : nat) (l : list A) (x : A) :
  In x (firstn n (skipn m l)) -> In x l.
Proof.
  intros H. rewrite <- (firstn_skipn m l). apply in_or_app. right.
  rewrite <- (firstn_skipn n (skipn m l)). apply in_or_app. now left.
Qed.

(** A limit that is not negative is an integer, and bounds the window. *)
Lemma limit_offset_limited {A} l o (rows page : list A) :
  limit_offset l o rows = Some page ->
  JS.ge l (JS.ofZ 0) = true ->
  exists lz, JS.toInteger l = Some lz /\ Z.of_nat (List.length page) <= lz.
Proof.
  unfold limit_offset, row_count. intros H Hge. rewrite Hge in H.
  destruct (if JS.truthy o then _ else _) as [rest|]; [|discriminate].
  destruct (JS.toInteger l) as [lz|]; [|discriminate].
  destruct (0 <=? lz) eqn:E1; [|discriminate].
  destruct (lz <=? max_bigint); [|discriminate].
  cbn [andb option_map] in H. injection H as <-.
  exists lz. split; [reflexivity|]. rewrite length_firstn. lia.
Qed.


Lemma getProducts_steps params st result st' :
  getProducts params st = (Ok result, st') ->
  exists column rows,
    sortColumn (sortBy_of params) = Some column
    /\ forallb well_typed (conditions params) = true
    /\ limit_offset (limit_of params) (offset_of params)
         (orderBy (order_leb (direction (sortOrder_of params)) column)
            (selected st params)) = Some rows
    /\ result = {| result_products := map (attach st) rows;
                   total := count_distinct_id (filtered_rows st params) |}
    /\ st' = st.
Proof.
  unfold getProducts. intros H.
  destruct (sortColumn (sortBy_of params)) as [column|]; [|discriminate].
  destruct (forallb well_typed (conditions params)); [|discriminate].
  cbn [negb] in H.
  destruct (limit_offset _ _ _) as [rows|] eqn:Hw; [|discriminate].
  injection H as <- <-. exists column, rows. auto.
Qed.

(** X1. A listing that succeeds leaves the store as it was and returns only
    stored products that satisfy the filter-set, each with the categories
    attached that the association table gives it. When the limit is not
    below zero it is an integer, and the listing returns at most that many
    products. *)
Theorem getProducts_page_within_filter_and_limit :
  forall (st st' : Store) (params : ProductsParams) (result : ProductsResult),
    getProducts params st = (Ok result, st') ->
    st' = st
    /\ (forall r, In r (result_products result) ->
          In (product r) (products st)
          /\ satisfies st params (product r) = true
          /\ attached r = categories_of st (id (product r)))
    /\ (JS.ge (limit_of params) (JS.ofZ 0) = true ->
        exists l, JS.toInteger (limit_of params) = Some l
                  /\ Z.of_nat (List.length (result_products result)) <= l).
Proof.
  intros st st' params result H.
  apply getProducts_steps in H as [column [rows [_ [_ [Hw [-> ->]]]]]].
  split; [reflexivity|]. split.
  - apply limit_offset_window in Hw as [n [m ->]].
    intros r Hr. cbn [result_products] in Hr.
    apply in_map_iff in Hr as [p [<- Hp]]. cbn [product attached attach].
    apply in_window in Hp.
    apply (Permutation_in p (Permutation_sym (orderBy_perm _ _ _))) in Hp.
    apply selected_iff in Hp as [Hin Hs]. auto.
  - intros Hge. cbn [result_products]. rewrite length_map.
    exact (limit_offset_limited _ _ _ _ Hw Hge).
Qed.

Lemma getProducts_page_within_filter_and_limit_witness :
  exists l,
    JS.toInteger (limit_of (window 1 1 Sample.defaults)) = Some l
    /\ Z.of_nat (List.length (map (attach Sample.store) [Sample.widget])) <= l.
Proof.
  apply (getProducts_page_within_filter_and_limit Sample.store Sample.store
           (window 1 1 Sample.defaults)
           {| result_products := map (attach Sample.store) [Sample.widget];
              total := 2 |});
    reflexivity.
Defined.

(** X2. With unique product keys, the total of a listing is the number of
    stored products that satisfy the filter-set, however many association
    rows qualify each of them; asking for another window of the same
    listing gives the same total. *)
Theorem total_counts_products_whatever_the_window :
  forall (st st' : Store) (params : ProductsParams) (result : ProductsResult),
    NoDup (map id (products st)) ->
    getProducts params st = (Ok result, st') ->
    total result
    = Z.of_nat (List.length (filter (satisfies st params) (products st)))
    /\ (forall page limit other st'',
          getProducts (window page limit params) st = (Ok other, st'') ->
          total other = total result).
Proof.
  intros st st' params result Hnd H.
  apply getProducts_steps in H as [col [rows [_ [_ [_ [-> _]]]]]]. cbn [total].
  split; [now apply total_counts_satisfying_products|].
  intros page limit other st'' H2.
  apply getProducts_steps in H2 as [col2 [rows2 [_ [_ [_ [-> _]]]]]]. reflexivity.
Qed.

Lemma total_counts_products_whatever_the_window_witness :
  total {| result_products := map (attach Sample.store) [Sample.widget; Sample.gadget];
           total := 2 |}
  = Z.of_nat (List.length (filter (satisfies Sample.store Sample.defaults)
                             (products Sample.store))).
Proof.
  apply (total_counts_products_whatever_the_window Sample.store Sample.store
           Sample.defaults
           {| result_products := map (attach Sample.store) [Sample.widget; Sample.gadget];
              total := 2 |}).
  - simpl. repeat constructor; simpl; intuition discriminate.
  - reflexivity.
Defined.

(** X3. When the first page of a listing is served, a page that starts at or
    past the end of the selected rows is served too, as long as its offset
    is an integer a number holds exactly: it is empty and carries the same
    total. *)
Theorem getProducts_page_past_the_end_is_empty :
  forall (st : Store) (params : ProductsParams) (page limit : Z)
         (first : ProductsResult),
    1 <= page -> 1 <= limit -> safe_integer page -> safe_integer limit ->
    safe_integer ((page - 1) * limit) ->
    getProducts (window 1 limit params) st = (Ok first, st) ->
    Z.of_nat (List.length (selected st params)) <= (page - 1) * limit ->
    getProducts (window page limit params) st
    = (Ok {| result_products := []; total := total first |}, st).
Proof.
  intros st params page limit first Hp Hl Sp Sl So H1 Hend.
  apply getProducts_steps in H1 as [column [rows [Hc [Hwt [_ [-> _]]]]]].
  cbn [total].
  unfold getProducts.
  change (sortBy_of (window page limit params)) with (sortBy_of (window 1 limit params)).
  rewrite Hc.
  change (conditions (window page limit params))
    with (conditions (window 1 limit params)).
  rewrite Hwt. cbn [negb].
  rewrite offset_of_window by assumption.
  change (limit_of (window page limit params)) with (JS.ofZ limit).
  pose proof (safe_fits _ Sl). pose proof (safe_fits _ So).
  rewrite limit_offset_integers by nia.
  rewrite skipn_all2.
  - rewrite firstn_nil. reflexivity.
  - rewrite <- (Permutation_length (orderBy_perm _ _ _)).
    change (selected st (window page limit params)) with (selected st params).
    nia.
Qed.


Lemma getProducts_page_past_the_end_is_empty_witness :
  getProducts (window 2 10 Sample.defaults) Sample.store
  = (Ok {| result_products := []; total := 2 |}, Sample.store).
Proof.
  apply (getProducts_page_past_the_end_is_empty Sample.store Sample.defaults 2 10
           {| result_products := map (attach Sample.store) [Sample.widget; Sample.gadget];
              total := 2 |}).
  - lia.
  - lia.
  - split; reflexivity.
  - split; reflexivity.
  - split; reflexivity.
  - reflexivity.
  - vm_compute. discriminate.
Defined.

(** ** What the handler answers *)


Lemma getProducts_keeps_store params st : snd (getProducts params st) = st.
Proof.
  unfold getProducts.
  destruct (sortColumn _); [|reflexivity].
  destruct (negb _); [reflexivity|].
  destruct (limit_offset _ _ _); reflexivity.
Qed.

Lemma get_products_keeps_store q st : snd (get_products q st) = st.
Proof.
  unfold get_products.
  destruct (validate_ranges _ _ _ _); [reflexivity|].
  pose proof (getProducts_keeps_store (params_of q) st) as Hk.
  destruct (getProducts (params_of q) st) as [[r|e] st']; simpl in *; congruence.
Qed.

Lemma nonempty_true s : s <> "" -> JS.nonempty s = true.
Proof. destruct s; [congruence | reflexivity]. Qed.

(** A bound that is supplied and parses to [NaN] fails its check. *)
Lemma invalid_bound_NaN parse s :
  s <> "" -> JS.isNaN (parse s) = true ->
  invalid_bound (parse_if_present parse (Some s)) = true.
Proof.
  intros Hs Hn. unfold parse_if_present. rewrite (nonempty_true s Hs).
  unfold invalid_bound. now rewrite Hn.
Qed.

Lemma lt_ofZ (x y : Z) : JS.lt (JS.ofZ x) (JS.ofZ y) = (x <? y).
Proof.
  unfold JS.lt, JS.ofZ, JS.Qlt_bool.
  destruct (x <? y) eqn:E.
  - apply negb_true_iff. apply Z.ltb_lt in E.
    destruct (Qle_bool (inject_Z y) (inject_Z x)) eqn:Q; [|reflexivity].
    apply Qle_bool_iff in Q. rewrite <- Zle_Qle in Q. lia.
  - apply negb_false_iff, Qle_bool_iff. rewrite <- Zle_Qle.
    apply Z.ltb_ge in E. lia.
Qed.

(** A bound that is supplied and parses to an integer from [0] on passes
    its check. *)
Lemma invalid_bound_integer parse s z :
  s <> "" -> parse s = JS.ofZ z -> 0 <= z ->
  parse_if_present parse (Some s) = Some (JS.ofZ z)
  /\ invalid_bound (Some (JS.ofZ z)) = false.
Proof.
  intros Hs Hp Hz. unfold parse_if_present. rewrite (nonempty_true s Hs), Hp.
  split; [reflexivity|]. unfold invalid_bound. rewrite lt_ofZ.
  destruct (z <? 0) eqn:E; [apply Z.ltb_lt in E; lia | reflexivity].
Qed.

(** X4. The range checks of the listing handler, on parameters of ASCII
    characters. A price or stock bound that is supplied and does not begin
    with a number is answered 400; the checks run in a fixed order with
    [minPrice] first, so a [minPrice] that is no number is answered
    [Invalid minPrice value] whatever else the request holds. A minimum and
    a maximum that are integers a number holds exactly, not negative, with
    the minimum above the maximum, are answered 400 with the message of the
    crossed pair (for the stock pair, when no price bound is supplied).
    Whatever the handler answers, the store is left as it was. *)
Theorem bad_bounds_are_rejected_with_their_message :
  forall (q : Query) (st : Store),
    (forall s,
       ascii_only s -> s <> "" ->
       q_minPrice q = Some s -> JS.isNaN (JS.parseFloat s) = true ->
       get_products q st = (Message 400 "Invalid minPrice value", st))
    /\ (forall s,
          ascii_only s -> s <> "" ->
          (q_maxPrice q = Some s /\ JS.isNaN (JS.parseFloat s) = true)
          \/ (q_minStock q = Some s /\ JS.isNaN (JS.parseInt (Some s)) = true)
          \/ (q_maxStock q = Some s /\ JS.isNaN (JS.parseInt (Some s)) = true) ->
          exists text, get_products q st = (Message 400 text, st))
    /\ (forall s1 s2 lo hi,
          ascii_only s1 -> ascii_only s2 -> s1 <> "" -> s2 <> "" ->
          safe_integer lo -> safe_integer hi -> 0 <= hi < lo ->
          (q_minPrice q = Some s1 -> q_maxPrice q = Some s2 ->
           JS.parseFloat s1 = JS.ofZ lo -> JS.parseFloat s2 = JS.ofZ hi ->
           get_products q st
           = (Message 400 "minPrice cannot be greater than maxPrice", st))
          /\ (q_minPrice q = None -> q_maxPrice q = None ->
              q_minStock q = Some s1 -> q_maxStock q = Some s2 ->
              JS.parseInt (Some s1) = JS.ofZ lo ->
              JS.parseInt (Some s2) = JS.ofZ hi ->
              get_products q st
              = (Message 400 "minStock cannot be greater than maxStock", st)))
    /\ snd (get_products q st) = st.
Proof.
  intros q st. split; [|split; [|split]].
  - intros s _ Hs Hq Hn. unfold get_products, validate_ranges.
    cbn [params_of minPrice]. rewrite Hq.
    now rewrite (invalid_bound_NaN JS.parseFloat s Hs Hn).
  - intros s _ Hs H.
    assert (Hv : validate_ranges (minPrice (params_of q)) (maxPrice (params_of q))
                   (minStock (params_of q)) (maxStock (params_of q)) <> None).
    { unfold validate_ranges. cbn [params_of minPrice maxPrice minStock maxStock].
      destruct H as [[Hq Hn] | [[Hq Hn] | [Hq Hn]]]; rewrite Hq.
      - rewrite (invalid_bound_NaN JS.parseFloat s Hs Hn).
        destruct (invalid_bound _); discriminate.
      - rewrite (invalid_bound_NaN parseInt_string s Hs Hn).
        destruct (invalid_bound _); [discriminate|].
        destruct (invalid_bound _); [discriminate|].
        destruct (crossed _ _); discriminate.
      - rewrite (invalid_bound_NaN parseInt_string s Hs Hn).
        destruct (invalid_bound _); [discriminate|].
        destruct (invalid_bound _); [discriminate|].
        destruct (crossed _ _); [discriminate|].
        destruct (invalid_bound _); discriminate. }
    unfold get_products.
    destruct (validate_ranges _ _ _ _) as [text|]; [|congruence].
    now exists text.
  - intros s1 s2 lo hi _ _ Hs1 Hs2 _ _ [Hhi Hlt].
    assert (Hc : crossed (Some (JS.ofZ lo)) (Some (JS.ofZ hi)) = true).
    { unfold crossed, JS.gt. rewrite lt_ofZ. now apply Z.ltb_lt. }
    split.
    + intros Hq1 Hq2 Hp1 Hp2.
      destruct (invalid_bound_integer JS.parseFloat s1 lo Hs1 Hp1) as [E1 I1]; [lia|].
      destruct (invalid_bound_integer JS.parseFloat s2 hi Hs2 Hp2) as [E2 I2]; [lia|].
      unfold get_products, validate_ranges. cbn [params_of minPrice maxPrice].
      rewrite Hq1, Hq2, E1, E2, I1, I2, Hc. reflexivity.
    + intros Hn1 Hn2 Hq1 Hq2 Hp1 Hp2.
      destruct (invalid_bound_integer parseInt_string s1 lo Hs1 Hp1) as [E1 I1]; [lia|].
      destruct (invalid_bound_integer parseInt_string s2 hi Hs2 Hp2) as [E2 I2]; [lia|].
      unfold get_products, validate_ranges.
      cbn [params_of minPrice maxPrice minStock maxStock].
      rewrite Hn1, Hn2, Hq1, Hq2, E1, E2, I1, I2, Hc. reflexivity.
  - apply get_products_keeps_store.
Qed.

Lemma bad_bounds_are_rejected_with_their_message_witness :
  get_products (with_minPrice "cheap" Sample.bare) Sample.store
  = (Message 400 "Invalid minPrice value", Sample.store).
Proof.
  apply (bad_bounds_are_rejected_with_their_message
           (with_minPrice "cheap" Sample.bare) Sample.store) with (s := "cheap");
    (reflexivity || discriminate).
Defined.











End Listing.

(* ===================================================================== *)
(** * The category ids of a request, and looking a product up *)
(* ===================================================================== *)

Section Identifiers.
Import Db Storage Routes Props MoreProps Lookup.
Local Open Scope list_scope.

Lemma trimStart_idem l : JS.trimStart (JS.trimStart l) = JS.trimStart l.
Proof.
  induction l as [|a l IH]; simpl; [reflexivity|].
  destruct (JS.is_space a) eqn:E; [assumption|]. simpl. now rewrite E.
Qed.

Lemma trimStart_length l : (List.length (JS.trimStart l) <= List.length l)%nat.
Proof.
  induction l as [|a l IH]; simpl; [lia|].
  destruct (JS.is_space a); simpl; lia.
Qed.

Lemma trimStart_snoc a h :
  JS.is_space h = false -> exists s, JS.trimStart (a ++ [h]) = s ++ [h].
Proof.
  intros Hh. induction a as [|x a IH]; simpl.
  - rewrite Hh. now exists [].
  - destruct (JS.is_space x); [assumption|]. now exists (x :: a).
Qed.

Lemma trimEnd_keeps_start m :
  JS.trimStart m = m -> JS.trimStart (JS.trimEnd m) = JS.trimEnd m.
Proof.
  intros Hm. destruct m as [|h t]; [reflexivity|].
  assert (Hh : JS.is_space h = false).
  { destruct (JS.is_space h) eqn:E; [|reflexivity].
    simpl in Hm. rewrite E in Hm.
    pose proof (trimStart_length t) as Hl. rewrite Hm in Hl. simpl in Hl. lia. }
  unfold JS.trimEnd. simpl rev.
  destruct (trimStart_snoc (rev t) h Hh) as [s ->].
  rewrite rev_app_distr. simpl. now rewrite Hh.
Qed.

Lemma trimEnd_idem m : JS.trimEnd (JS.trimEnd m) = JS.trimEnd m.
Proof. unfold JS.trimEnd. now rewrite rev_involutive, trimStart_idem. Qed.

(** Trimming twice is trimming once. *)
Lemma trim_idem s : JS.trim (JS.trim s) = JS.trim s.
Proof.
  unfold JS.trim. rewrite list_ascii_of_string_of_list_ascii.
  rewrite (trimEnd_keeps_start (JS.trimStart _)) by apply trimStart_idem.
  now rewrite trimEnd_idem.
Qed.

Lemma nonblank_trim s : nonblank (JS.trim s) = nonblank s.
Proof. unfold nonblank. now rewrite trim_idem. Qed.

(** X6. No empty or blank category id reaches the storage layer, and the
    ids taken from a delimited string carry no white space at either end. *)
Theorem categoryIdsArray_ids_are_not_blank :
  forall (v : option QueryValue) (ids : list string),
    categoryIdsArray v = Some ids ->
    Forall (fun i => nonblank i = true) ids
    /\ (forall s, v = Some (QString s) -> Forall (fun i => JS.trim i = i) ids).
Proof.
  intros v ids H. unfold categoryIdsArray in H.
  destruct v as [[s|items]|]; [| |discriminate].
  - destruct (JS.nonempty s); [|discriminate].
    destruct (JS.includes s ",").
    + injection H as <-.
      assert (Hall : Forall (fun i => JS.nonempty i = true /\ JS.trim i = i)
                       (filter JS.nonempty (map JS.trim (JS.split s ",")))).
      { apply Forall_forall. intros i Hi. apply filter_In in Hi as [Hi Hne].
        apply in_map_iff in Hi as [piece [<- _]]. split; [assumption|].
        apply trim_idem. }
      split.
      * eapply Forall_impl; [|exact Hall]. intros i [Hne Ht].
        unfold nonblank. now rewrite Ht.
      * intros _ _. eapply Forall_impl; [|exact Hall]. now intros i [_ Ht].
    + destruct (nonblank s) eqn:Hb; [|discriminate]. injection H as <-. split.
      * constructor; [|constructor]. now rewrite nonblank_trim.
      * intros _ _. constructor; [|constructor]. apply trim_idem.
  - injection H as <-. split.
    + apply Forall_forall. intros i Hi. apply filter_In in Hi as [_ Hi].
      now apply andb_true_iff in Hi.
    + intros s [=].
Qed.

Lemma categoryIdsArray_ids_are_not_blank_witness :
  Forall (fun i => nonblank i = true) ["c1"; "c2"].
Proof.
  apply (categoryIdsArray_ids_are_not_blank (Some (QString " c1 ,, c2,")) ["c1"; "c2"]).
  reflexivity.
Defined.

(** ** From the client's query string back to the list *)

Lemma chars_of_append (s1 s2 : string) :
  list_ascii_of_string (s1 ++ s2)%string
  = list_ascii_of_string s1 ++ list_ascii_of_string s2.
Proof. induction s1 as [|c s1 IH]; simpl; [reflexivity | now rewrite IH]. Qed.

Lemma split_chars_none c l :
  existsb (Ascii.eqb c) l = false -> JS.split_chars c l = [l].
Proof.
  induction l as [|x l IH]; simpl; [reflexivity|].
  intros H. apply orb_false_iff in H as [Hx Hl].
  rewrite Ascii.eqb_sym, Hx, (IH Hl). reflexivity.
Qed.

Lemma split_chars_app c l1 l2 :
  existsb (Ascii.eqb c) l1 = false ->
  JS.split_chars c (l1 ++ c :: l2) = l1 :: JS.split_chars c l2.
Proof.
  induction l1 as [|x l1 IH]; simpl.
  - intros _. now rewrite Ascii.eqb_refl.
  - intros H. apply orb_false_iff in H as [Hx Hl].
    rewrite Ascii.eqb_sym, Hx, (IH Hl). reflexivity.
Qed.

Lemma split_concat (ids : list string) :
  ids <> [] ->
  Forall (fun i => JS.includes i "," = false) ids ->
  JS.split (String.concat "," ids) "," = ids.
Proof.
  unfold JS.split, JS.includes.
  induction ids as [|a ids IH]; [congruence|]. intros _ Hall.
  inversion Hall as [|? ? Ha Hrest]; subst.
  destruct ids as [|b ids].
  - simpl String.concat. rewrite split_chars_none by assumption. simpl.
    now rewrite string_of_list_ascii_of_string.
  - change (String.concat "," (a :: b :: ids))
      with (a ++ "," ++ String.concat "," (b :: ids))%string.
    rewrite !chars_of_append. change (list_ascii_of_string ",") with [","%char].
    cbn [app]. rewrite split_chars_app by assumption.
    cbn [map]. rewrite string_of_list_ascii_of_string. f_equal.
    apply IH; [discriminate | assumption].
Qed.

Lemma includes_concat a b ids :
  JS.includes (String.concat "," (a :: b :: ids)) "," = true.
Proof.
  change (String.concat "," (a :: b :: ids))
    with (a ++ "," ++ String.concat "," (b :: ids))%string.
  unfold JS.includes. rewrite !chars_of_append, existsb_app.
  change (list_ascii_of_string ",") with [","%char]. simpl.
  apply orb_true_r.
Qed.

Lemma nonempty_iff s : JS.nonempty s = true <-> s <> "".
Proof. destruct s; simpl; split; intros H; congruence. Qed.

(** X7. The list of category ids the client joins with commas into the
    query string is the list the listing handler recovers from it, for ids
    of ASCII characters that are not empty, hold no comma and no white
    space at either end; an empty selection sends no parameter and the
    handler sees none. *)
Theorem categoryIds_survive_the_query_string :
  forall (ids : list string),
    Forall clean_id ids ->
    categoryIdsArray (option_map QString (Client.categoryIds_param ids))
    = match ids with [] => None | _ :: _ => Some ids end.
Proof.
  intros ids Hclean. destruct ids as [|a ids]; [reflexivity|].
  assert (Hcomma : Forall (fun i => JS.includes i "," = false) (a :: ids))
    by (eapply Forall_impl; [|exact Hclean]; now intros i [_ [_ [H _]]]).
  assert (Htrim : map JS.trim (a :: ids) = a :: ids).
  { rewrite <- (map_id (a :: ids)) at 2. apply map_ext_in. intros i Hi.
    rewrite Forall_forall in Hclean. now destruct (Hclean i Hi) as [_ [_ [_ H]]]. }
  assert (Hne : filter JS.nonempty (a :: ids) = a :: ids).
  { apply filter_all. intros i Hi. apply nonempty_iff.
    rewrite Forall_forall in Hclean. now destruct (Hclean i Hi) as [_ [H _]]. }
  inversion Hclean as [|? ? [_ [Ha [Hac Hat]]] _]; subst.
  unfold Client.categoryIds_param, option_map, categoryIdsArray.
  destruct ids as [|b ids].
  - simpl String.concat. apply nonempty_iff in Ha. rewrite Ha, Hac.
    unfold nonblank. now rewrite Hat, Ha.
  - rewrite includes_concat.
    assert (Hs : JS.nonempty (String.concat "," (a :: b :: ids)) = true).
    { change (String.concat "," (a :: b :: ids))
        with (a ++ "," ++ String.concat "," (b :: ids))%string.
      destruct a; [congruence | reflexivity]. }
    rewrite Hs, split_concat by (discriminate || assumption).
    now rewrite Htrim, Hne.
Qed.

Lemma categoryIds_survive_the_query_string_witness :
  categoryIdsArray (option_map QString (Client.categoryIds_param ["c1"; "c2"]))
  = Some ["c1"; "c2"].
Proof.
  apply (categoryIds_survive_the_query_string ["c1"; "c2"]).
  repeat constructor; discriminate.
Defined.

(** ** Attached categories and lookup *)

Lemma flat_map_all_nil {A B} (f : A -> list B) (l : list A) :
  (forall x, In x l -> f x = []) -> flat_map f l = [].
Proof.
  induction l as [|x l IH]; simpl; intros H; [reflexivity|].
  rewrite (H x (or_introl eq_refl)). apply IH. intros y Hy. apply H. now right.
Qed.

Lemma categories_of_iff st pid c :
  In c (categories_of st pid) <->
  In c (categories st)
  /\ exists a, In a (productCategories st)
               /\ productId a = pid /\ Db.categoryId a = cat_id c.
Proof.
  unfold categories_of. rewrite in_flat_map. split.
  - intros [c' [Hc' Hin]]. apply in_map_iff in Hin as [a [<- Ha]].
    apply filter_In in Ha as [Ha Hm]. apply andb_true_iff in Hm as [H1 H2].
    apply String.eqb_eq in H1, H2. split; [assumption|]. exists a. auto.
  - intros [Hc [a [Ha [Hp Hcid]]]]. exists c. split; [assumption|].
    apply in_map_iff. exists a. split; [reflexivity|].
    apply filter_In. split; [assumption|].
    apply andb_true_iff. split; apply String.eqb_eq; auto.
Qed.

(** X8. The categories attached to a product are those of the category
    table that an association row links to it; a product without
    association row gets an empty list. *)
Theorem attached_categories_are_the_linked_ones :
  forall (st : Store) (pid : string),
    (forall c, In c (categories_of st pid) <->
               In c (categories st)
               /\ exists a, In a (productCategories st)
                            /\ productId a = pid /\ Db.categoryId a = cat_id c)
    /\ (associations st pid = [] -> categories_of st pid = []).
Proof.
  intros st pid. split.
  - intros c. apply categories_of_iff.
  - intros Hnone. unfold categories_of.
    apply flat_map_all_nil. intros c _.
    rewrite (filter_none _ (productCategories st)); [reflexivity|].
    intros a Ha. apply andb_false_iff. right.
    destruct (String.eqb (productId a) pid) eqn:E; [|reflexivity].
    assert (Hin : In a (associations st pid)) by (apply filter_In; auto).
    rewrite Hnone in Hin. contradiction.
Qed.

Lemma attached_categories_are_the_linked_ones_witness :
  associations Sample.store "p9" = [] /\ categories_of Sample.store "p9" = [].
Proof.
  split; [reflexivity|].
  apply (attached_categories_are_the_linked_ones Sample.store "p9"). reflexivity.
Defined.

Lemma has_product_filter st pid :
  has_product st pid = true <->
  exists p rest, filter (fun p => String.eqb (id p) pid) (products st) = p :: rest.
Proof.
  unfold has_product. split.
  - intros H. apply existsb_exists in H as [p [Hp E]].
    destruct (filter _ (products st)) as [|p' rest] eqn:F; [|eauto].
    assert (Hin : In p (filter (fun p => String.eqb (id p) pid) (products st)))
      by (apply filter_In; auto).
    rewrite F in Hin. contradiction.
  - intros [p [rest F]]. apply existsb_exists. exists p.
    assert (Hin : In p (filter (fun p => String.eqb (id p) pid) (products st)))
      by (rewrite F; now left).
    now apply filter_In in Hin.
Qed.

(** X9. Looking a product up by id answers 404 exactly when no product row
    has the id; otherwise it answers 200 with a stored row of that id and
    its attached categories. The store is left as it was. *)
Theorem get_product_is_404_exactly_when_absent :
  forall (st : Store) (pid : string),
    (has_product st pid = false ->
     get_product pid st = (Message 404 "Product not found", st))
    /\ (has_product st pid = true ->
        exists p, In p (products st) /\ id p = pid
                  /\ get_product pid st = (OneProduct 200 (Some (attach st p)), st)).
Proof.
  intros st pid. unfold get_product, getProduct, read. split.
  - intros H. rewrite (filter_none _ (products st)); [reflexivity|].
    now apply has_product_false.
  - intros H. apply has_product_filter in H as [p [rest F]].
    rewrite F. exists p.
    assert (Hin : In p (filter (fun p => String.eqb (id p) pid) (products st)))
      by (rewrite F; now left).
    apply filter_In in Hin as [Hin E]. apply String.eqb_eq in E. auto.
Qed.

Lemma get_product_is_404_exactly_when_absent_witness :
  has_product Sample.store "p9" = false
  /\ get_product "p9" Sample.store = (Message 404 "Product not found", Sample.store).
Proof.
  split; [reflexivity|].
  apply (get_product_is_404_exactly_when_absent Sample.store "p9"). reflexivity.
Defined.

End Identifiers.

(* ===================================================================== *)
(** * Further properties of the writes *)
(* ===================================================================== *)

Section Writes.
Import Db Storage Routes Props MoreProps Lookup.
Local Open Scope list_scope.

(** The product table after an update, whatever its outcome. *)
Lemma updateProduct_tables u env pid patch cids st :
  products (snd (updateProduct u env pid patch cids st))
  = map (fun p => if String.eqb (id p) pid then set_columns patch (now env) p else p)
      (products st)
  /\ categories (snd (updateProduct u env pid patch cids st)) = categories st.
Proof.
  destruct cids as [ids|]; [|split; reflexivity].
  rewrite updateProduct_replace_eq. cbv zeta.
  destruct ids as [|c cs]; [split; reflexivity|].
  destruct (check_insert _ _ _); split; reflexivity.
Qed.

Lemma updateProduct_other_associations u env pid patch cids st :
  other_associations (snd (updateProduct u env pid patch cids st)) pid
  = other_associations st pid.
Proof.
  destruct cids as [ids|]; [|reflexivity].
  rewrite updateProduct_replace_eq. cbv zeta.
  pose proof (after_delete_associations env pid patch st) as [_ Hother].
  destruct ids as [|c cs]; [exact Hother|].
  destruct (check_insert _ _ _); [exact Hother|].
  rewrite getProduct_pure. unfold other_associations in *.
  cbn [productCategories]. rewrite filter_app, Hother, associations_rows_other.
  apply app_nil_r.
Qed.

Lemma filter_patched_others pid patch t (l : list Product) :
  filter (fun p => negb (String.eqb (id p) pid))
    (map (fun p => if String.eqb (id p) pid then set_columns patch t p else p) l)
  = filter (fun p => negb (String.eqb (id p) pid)) l.
Proof.
  induction l as [|p l IH]; [reflexivity|]. cbn [map filter].
  destruct (String.eqb (id p) pid) eqn:E.
  - cbn [id set_columns]. rewrite E. exact IH.
  - rewrite E. cbn [negb]. now rewrite IH.
Qed.

Lemma filter_patched_same pid patch t (l : list Product) :
  filter (fun p => String.eqb (id p) pid)
    (map (fun p => if String.eqb (id p) pid then set_columns patch t p else p) l)
  = map (set_columns patch t) (filter (fun p => String.eqb (id p) pid) l).
Proof.
  induction l as [|p l IH]; [reflexivity|]. cbn [map filter].
  destruct (String.eqb (id p) pid) eqn:E.
  - cbn [id set_columns]. rewrite E. cbn [map]. now rewrite IH.
  - rewrite E. exact IH.
Qed.

(** The row update of the code is the update the patch describes. *)
Lemma set_columns_patched patch t p : patched patch t p (set_columns patch t p).
Proof. unfold patched, set_columns, default. cbn. repeat split. Qed.

Lemma map_set_columns_patched patch t (l : list Product) :
  Forall2 (patched patch t) l (map (set_columns patch t) l).
Proof.
  induction l as [|p l IH]; cbn [map]; constructor;
    [apply set_columns_patched | exact IH].
Qed.

(** X10. Whatever its outcome, an update adds, removes and re-keys no
    product row, leaves the rows of other ids, the category table and the
    association rows of other products as they were, and changes every row
    of the id as the patch says: a column the patch names takes its value,
    the other columns, the id and [createdAt] are kept, and [updatedAt] is
    the current time. *)
Theorem updateProduct_touches_one_product :
  forall (u : bool) (env : Env) (pid : string) (patch : PartialProduct)
         (cids : option (list string)) (st : Store),
    let st' := snd (updateProduct u env pid patch cids st) in
    map id (products st') = map id (products st)
    /\ map createdAt (products st') = map createdAt (products st)
    /\ filter (fun p => negb (String.eqb (id p) pid)) (products st')
       = filter (fun p => negb (String.eqb (id p) pid)) (products st)
    /\ Forall2 (patched patch (now env))
         (filter (fun p => String.eqb (id p) pid) (products st))
         (filter (fun p => String.eqb (id p) pid) (products st'))
    /\ categories st' = categories st
    /\ other_associations st' pid = other_associations st pid.
Proof.
  intros u env pid patch cids st st'.
  destruct (updateProduct_tables u env pid patch cids st) as [Hp Hc].
  fold st' in Hp, Hc. rewrite Hp, Hc.
  split; [|split; [|split; [|split; [|split]]]].
  - rewrite map_map. apply map_ext. intros p. now destruct (String.eqb (id p) pid).
  - rewrite map_map. apply map_ext. intros p. now destruct (String.eqb (id p) pid).
  - apply filter_patched_others.
  - rewrite filter_patched_same. apply map_set_columns_patched.
  - reflexivity.
  - apply updateProduct_other_associations.
Qed.

Lemma filter_unique_id (l : list Product) (p : Product) :
  NoDup (map id l) -> In p l ->
  filter (fun x => String.eqb (id x) (id p)) l = [p].
Proof.
  induction l as [|x l IH]; simpl; intros Hnd Hin; [contradiction|].
  inversion Hnd as [|? ? Hx Hl]; subst. destruct Hin as [-> | Hin].
  - rewrite String.eqb_refl. f_equal. apply filter_none. intros y Hy.
    destruct (String.eqb (id y) (id p)) eqn:E; [|reflexivity].
    apply String.eqb_eq in E. exfalso. apply Hx. rewrite <- E. now apply in_map.
  - destruct (String.eqb (id x) (id p)) eqn:E.
    + apply String.eqb_eq in E. exfalso. apply Hx. rewrite E. now apply in_map.
    + now apply IH.
Qed.

(** X11. An update of a stored product that leaves the categories out
    answers with the row as the patch changes it (named columns replaced,
    the others, the id and [createdAt] kept, [updatedAt] the time of the
    update) and with the categories it had; that row is the stored one, and
    the PUT handler sends the answer with status 200. *)
Theorem updateProduct_returns_the_patched_row :
  forall (u : bool) (env : Env) (patch : PartialProduct) (st : Store) (p : Product),
    NoDup (map id (products st)) ->
    In p (products st) ->
    exists updated,
      fst (updateProduct u env (id p) patch None st) = Ok (Some updated)
      /\ patched patch (now env) p (product updated)
      /\ attached updated = categories_of st (id p)
      /\ In (product updated)
           (products (snd (updateProduct u env (id p) patch None st)))
      /\ (valid_partial patch = true ->
          fst (put_product u env (id p) patch BUndefined st)
          = OneProduct 200 (Some updated)).
Proof.
  intros u env patch st p Hnd Hin.
  set (result := updateProduct u env (id p) patch None st).
  set (updated := {| product := set_columns patch (now env) p;
                     attached := categories_of st (id p) |}).
  set (f := fun x => if String.eqb (id x) (id p)
                     then set_columns patch (now env) x else x).
  assert (Hr : result = getProduct (id p)
                 {| products := map f (products st);
                    categories := categories st;
                    productCategories := productCategories st |}) by reflexivity.
  assert (Hf : filter (fun x => String.eqb (id x) (id p)) (map f (products st))
               = [set_columns patch (now env) p]).
  { unfold f. rewrite filter_patched_same.
    now rewrite (filter_unique_id (products st) p Hnd Hin). }
  assert (Hfst : fst result = Ok (Some updated)).
  { rewrite Hr. unfold getProduct, read. cbn [fst products]. now rewrite Hf. }
  exists updated. split; [exact Hfst|].
  split; [apply set_columns_patched|]. split; [reflexivity|]. split.
  - rewrite Hr. cbn [product updated].
    unfold getProduct, read. cbn [snd products].
    assert (Hm : In (set_columns patch (now env) p)
                   (filter (fun x => String.eqb (id x) (id p)) (map f (products st))))
      by (rewrite Hf; now left).
    now apply filter_In in Hm.
  - intros Hv. unfold put_product. rewrite Hv. cbn [negb].
    fold result. destruct result as [[v|e] st']; simpl in *; congruence.
Qed.

Lemma updateProduct_returns_the_patched_row_witness :
  exists updated,
    fst (updateProduct true Sample.env "p1" Sample.rename None Sample.store)
    = Ok (Some updated)
    /\ name (product updated) = "Widget II"
    /\ stockQuantity (product updated) = 7
    /\ price (product updated) = price Sample.widget
    /\ updatedAt (product updated) = 20
    /\ attached updated = [Sample.tools].
Proof.
  destruct (updateProduct_returns_the_patched_row true Sample.env Sample.rename
              Sample.store Sample.widget)
    as [updated [H1 [[_ [_ [Ht [Hn [_ [Hp [Hs _]]]]]]] [Ha _]]]].
  - simpl. repeat constructor; simpl; intuition discriminate.
  - now left.
  - exists updated. repeat split; assumption.
Defined.

Lemma filter_filter_and {A} (f g : A -> bool) (l : list A) :
  filter f (filter g l) = filter (fun x => f x && g x) l.
Proof.
  induction l as [|x l IH]; [reflexivity|]. simpl.
  destruct (g x); simpl; destruct (f x); simpl; now rewrite IH.
Qed.

Lemma filter_ext_in_both {A} (f g : A -> bool) (l : list A) :
  (forall x, In x l -> f x = g x) -> filter f l = filter g l.
Proof. apply filter_ext_in. Qed.

Lemma map_unchanged {A} (f : A -> A) (l : list A) :
  (forall x, In x l -> f x = x) -> map f l = l.
Proof.
  intros H. rewrite <- (map_id l) at 2. now apply map_ext_in.
Qed.

(** X12. An update of an id that names no product, with the categories left
    out, is not an error: the storage layer returns no product, the store is
    left as it was, and the PUT handler answers 200 without a product. *)
Theorem updateProduct_of_absent_id_is_a_silent_no_op :
  forall (u : bool) (env : Env) (pid : string) (patch : PartialProduct) (st : Store),
    has_product st pid = false ->
    updateProduct u env pid patch None st = (Ok None, st)
    /\ (valid_partial patch = true ->
        put_product u env pid patch BUndefined st = (OneProduct 200 None, st)).
Proof.
  intros u env pid patch st H.
  pose proof (has_product_false st pid H) as Hno.
  assert (Hu : updateProduct u env pid patch None st = (Ok None, st)).
  { unfold updateProduct, bind, update_products, getProduct, read, ret.
    cbn [products].
    rewrite (map_unchanged _ (products st))
      by (intros p Hp; now rewrite (Hno p Hp)).
    rewrite (filter_none _ (products st)) by assumption.
    now rewrite store_eta. }
  split; [exact Hu|].
  intros Hv. unfold put_product. now rewrite Hv, Hu.
Qed.

Lemma updateProduct_of_absent_id_is_a_silent_no_op_witness :
  put_product true Sample.env "p9" Sample.no_change BUndefined Sample.store
  = (OneProduct 200 None, Sample.store).
Proof.
  apply (updateProduct_of_absent_id_is_a_silent_no_op true Sample.env "p9"
           Sample.no_change Sample.store); reflexivity.
Defined.


Lemma getProduct_after_insert env product st pcs :
  has_product st (newId env) = false ->
  getProduct (newId env)
    {| products := products st ++ [inserted_row env product];
       categories := categories st; productCategories := pcs |}
  = (Ok (Some {| Storage.product := inserted_row env product;
                 attached :=
                   categories_of
                     {| products := products st ++ [inserted_row env product];
                        categories := categories st; productCategories := pcs |}
                     (newId env) |}),
     {| products := products st ++ [inserted_row env product];
        categories := categories st; productCategories := pcs |}).
Proof.
  intros Hfresh. unfold getProduct, read. cbn [products].
  rewrite filter_app, (filter_none _ (products st))
    by (apply has_product_false; assumption).
  simpl. now rewrite String.eqb_refl.
Qed.

Lemma createProduct_without_categories u env product st :
  has_product st (newId env) = false ->
  createProduct u env product [] st
  = getProduct (newId env)
      {| products := products st ++ [inserted_row env product];
         categories := categories st; productCategories := productCategories st |}.
Proof.
  intros Hfresh. unfold createProduct, bind, insert_products.
  now rewrite Hfresh.
Qed.

(** X13. A create request without a [categoryIds] array (absent, not an
    array, or empty) is served: for valid product data and a fresh key the
    handler answers 201 with the new row, which is appended to the product
    table, and the category and association tables are left as they were. *)
Theorem post_product_without_categories_is_created :
  forall (u : bool) (env : Env) (data : InsertProduct) (cids : BodyValue) (st : Store),
    valid_insert data = true ->
    has_product st (newId env) = false ->
    cids = BUndefined \/ cids = BOther \/ cids = BArray [] ->
    exists body,
      fst (post_product u env data cids st) = OneProduct 201 (Some body)
      /\ product body = inserted_row env data
      /\ products (snd (post_product u env data cids st))
         = products st ++ [inserted_row env data]
      /\ categories (snd (post_product u env data cids st)) = categories st
      /\ productCategories (snd (post_product u env data cids st))
         = productCategories st.
Proof.
  intros u env data cids st Hv Hfresh Hc.
  assert (E : post_product u env data cids st
              = match createProduct u env data [] st with
                | (Ok p, st') => (OneProduct 201 p, st')
                | (Throw _, st') => (Message 500 "Failed to create product", st')
                end).
  { unfold post_product. rewrite Hv. cbn [negb].
    destruct Hc as [-> | [-> | ->]]; reflexivity. }
  rewrite E, createProduct_without_categories, getProduct_after_insert by assumption.
  eexists. cbn [fst snd]. split; [reflexivity|]. repeat split.
Qed.

Lemma post_product_without_categories_is_created_witness :
  exists body,
    fst (post_product true Sample.env Sample.gizmo BUndefined Sample.store)
    = OneProduct 201 (Some body).
Proof.
  destruct (post_product_without_categories_is_created true Sample.env Sample.gizmo
              BUndefined Sample.store) as [body [H _]];
    [reflexivity | reflexivity | now left |].
  exists body. exact H.
Defined.

Lemma createProduct_accepted u env product ids st :
  consistent u st ->
  has_product st (newId env) = false ->
  NoDup ids ->
  (forall c, In c ids -> has_category st c = true) ->
  createProduct u env product ids st
  = getProduct (newId env)
      {| products := products st ++ [inserted_row env product];
         categories := categories st;
         productCategories :=
           productCategories st ++ association_rows (newId env) ids |}.
Proof.
  intros [Hfk Huniq] Hfresh Hnd Hcats.
  destruct ids as [|c cs].
  { rewrite createProduct_without_categories by assumption.
    cbn [association_rows map]. now rewrite app_nil_r. }
  unfold createProduct, bind, insert_products. rewrite Hfresh.
  fold (inserted_row env product). cbn [id inserted_row].
  unfold insert_productCategories, check_insert.
  set (st1 := {| products := products st ++ [inserted_row env product];
                 categories := categories st;
                 productCategories := productCategories st |}).
  assert (Hfkok : forallb
            (fun a => has_product st1 (productId a) && has_category st1 (Db.categoryId a))
            (association_rows (newId env) (c :: cs)) = true).
  { apply forallb_true. intros a Ha. apply in_map_iff in Ha as [c' [<- Hc']].
    cbn [productId Db.categoryId]. apply andb_true_iff. split.
    - unfold has_product. cbn [products st1]. rewrite existsb_app. simpl.
      rewrite String.eqb_refl. apply orb_true_iff. right. reflexivity.
    - apply (Hcats c' Hc'). }
  rewrite Hfkok. cbn [negb].
  assert (Hu : u && negb (pairwise_distinct
                 (productCategories st1 ++ association_rows (newId env) (c :: cs)))
               = false).
  { destruct u; [|reflexivity]. cbn [andb]. apply negb_false_iff.
    apply pairwise_distinct_app.
    - apply Huniq. reflexivity.
    - apply pairwise_distinct_rows. assumption.
    - intros a b Ha Hb. apply in_map_iff in Hb as [c' [<- Hc']].
      unfold same_pair. cbn [productId].
      rewrite Forall_forall in Hfk. specialize (Hfk a Ha).
      destruct (String.eqb (productId a) (newId env)) eqn:E; [|reflexivity].
      apply String.eqb_eq in E. congruence. }
  rewrite Hu. reflexivity.
Qed.

Lemma existsb_has_category st c :
  has_category st c = true -> exists x, In x (categories st) /\ cat_id x = c.
Proof.
  unfold has_category. intros H. apply existsb_exists in H as [x [Hx E]].
  apply String.eqb_eq in E. eauto.
Qed.

(** X14. A create with pairwise distinct ids of existing categories (a
    fresh key, a store that respects its constraints) answers with the
    inserted row, and the categories attached to it are exactly the
    categories whose id was supplied. *)
Theorem createProduct_returns_the_named_categories :
  forall (u : bool) (env : Env) (product : InsertProduct) (ids : list string)
         (st : Store),
    consistent u st ->
    has_product st (newId env) = false ->
    NoDup ids ->
    (forall c, In c ids -> has_category st c = true) ->
    exists created,
      fst (createProduct u env product ids st) = Ok (Some created)
      /\ Storage.product created = inserted_row env product
      /\ (forall c, In c (attached created) <->
                    In c (categories st) /\ In (cat_id c) ids)
      /\ (forall i, In i ids -> exists c, In c (attached created) /\ cat_id c = i).
Proof.
  intros u env product ids st Hcons Hfresh Hnd Hcats.
  rewrite createProduct_accepted, getProduct_after_insert by assumption.
  eexists. cbn [fst]. split; [reflexivity|]. cbn [Storage.product attached].
  split; [reflexivity|].
  assert (Hiff : forall c,
             In c (categories_of
                     {| products := products st ++ [inserted_row env product];
                        categories := categories st;
                        productCategories :=
                          productCategories st ++ association_rows (newId env) ids |}
                     (newId env))
             <-> In c (categories st) /\ In (cat_id c) ids).
  { intros c. rewrite categories_of_iff. cbn [categories productCategories].
    destruct Hcons as [Hfk _]. rewrite Forall_forall in Hfk. split.
    - intros [Hc [a [Ha [Hp Hcid]]]]. split; [assumption|].
      apply in_app_or in Ha as [Ha | Ha].
      + specialize (Hfk a Ha). rewrite Hp in Hfk. congruence.
      + apply in_map_iff in Ha as [i [<- Hi]]. cbn [Db.categoryId] in Hcid.
        now rewrite <- Hcid.
    - intros [Hc Hi]. split; [assumption|].
      exists {| productId := newId env; Db.categoryId := cat_id c |}.
      split; [|split; reflexivity].
      apply in_or_app. right. apply in_map_iff. now exists (cat_id c). }
  split; [exact Hiff|].
  intros i Hi. destruct (existsb_has_category st i (Hcats i Hi)) as [c [Hc <-]].
  exists c. split; [|reflexivity]. apply Hiff. auto.
Qed.

Lemma createProduct_returns_the_named_categories_witness :
  exists created,
    fst (createProduct true Sample.env Sample.gizmo ["c2"] Sample.store)
    = Ok (Some created)
    /\ Storage.product created = inserted_row Sample.env Sample.gizmo.
Proof.
  destruct (createProduct_returns_the_named_categories true Sample.env Sample.gizmo
              ["c2"] Sample.store) as [created [H1 [H2 _]]].
  - split; [repeat constructor | reflexivity].
  - reflexivity.
  - repeat constructor. simpl. intuition.
  - intros c [<-|[]]. reflexivity.
  - exists created. split; assumption.
Defined.

Lemma has_product_after_delete st pid :
  has_product (snd (deleteProduct pid st)) pid = false.
Proof.
  unfold has_product, deleteProduct, delete_products. cbn [snd products].
  destruct (existsb _ _) eqn:E; [|reflexivity].
  apply existsb_exists in E as [p [Hp Hid]].
  apply filter_In in Hp as [_ Hp]. now rewrite Hid in Hp.
Qed.

(** X15. After a delete no product row has the id, so a lookup answers 404
    and a second delete changes nothing; the rows of other ids, the category
    table and the association rows of other products are as before. *)
Theorem deleteProduct_removes_only_that_product :
  forall (st : Store) (pid : string),
    let st' := snd (deleteProduct pid st) in
    fst (deleteProduct pid st) = Ok tt
    /\ get_product pid st' = (Message 404 "Product not found", st')
    /\ deleteProduct pid st' = (Ok tt, st')
    /\ products st' = filter (fun p => negb (String.eqb (id p) pid)) (products st)
    /\ categories st' = categories st
    /\ other_associations st' pid = other_associations st pid.
Proof.
  intros st pid st'.
  pose proof (has_product_after_delete st pid) as Hgone. fold st' in Hgone.
  split; [reflexivity|]. split; [|split; [|split; [|split]]].
  - unfold get_product, getProduct, read.
    rewrite (filter_none _ (products st')); [reflexivity|].
    now apply has_product_false.
  - now apply delete_absent_unchanged.
  - reflexivity.
  - reflexivity.
  - unfold other_associations, st', deleteProduct, delete_products, cascade.
    cbn [snd productCategories]. rewrite filter_filter_and.
    apply filter_ext_in_both. intros a _.
    destruct (String.eqb (productId a) pid) eqn:E; [reflexivity|].
    cbn [negb andb]. apply negb_true_iff.
    destruct (existsb _ _) eqn:Ex; [|reflexivity].
    apply existsb_exists in Ex as [p [Hp Hid]].
    apply filter_In in Hp as [_ Hp]. apply String.eqb_eq in Hp, Hid.
    apply String.eqb_neq in E. congruence.
Qed.

End Writes.

(* ===================================================================== *)
(** * Properties of the category routes *)
(* ===================================================================== *)

Section CategoryRoutes.
Import Db Storage Props MoreProps Categories.
Local Open Scope list_scope.

Lemma rows_of_fst st c r : In r (rows_of st c) -> fst r = c.
Proof.
  unfold rows_of. destruct (filter _ _) as [|a l].
  - intros [<-|[]]. reflexivity.
  - intros H. apply in_map_iff in H as [x [<- _]]. reflexivity.
Qed.

Lemma rows_of_cons st c : exists r rest, rows_of st c = r :: rest /\ fst r = c.
Proof.
  unfold rows_of. destruct (filter _ _) as [|a l]; simpl; eauto.
Qed.

Lemma rows_of_count st c :
  count_not_null (rows_of st c) = links st c.
Proof.
  unfold rows_of, count_not_null, links.
  destruct (filter _ (productCategories st)) as [|a l]; [reflexivity|].
  f_equal. rewrite filter_all.
  - now rewrite length_map.
  - intros r Hr. apply in_map_iff in Hr as [x [<- _]]. reflexivity.
Qed.

Lemma nodup_block (i : string) (n : nat) (rest : list string) :
  ~ In i rest ->
  nodup string_dec (repeat i (S n) ++ rest) = i :: nodup string_dec rest.
Proof.
  intros Hi. induction n as [|n IH].
  - simpl. destruct (in_dec string_dec i rest); [contradiction | reflexivity].
  - change (repeat i (S (S n)) ++ rest) with (i :: (repeat i (S n) ++ rest)).
    cbn [nodup]. destruct (in_dec string_dec i (repeat i (S n) ++ rest)) as [_|Hn].
    + exact IH.
    + exfalso. apply Hn. simpl. now left.
Qed.

Lemma rows_of_ids st c :
  map (fun r => cat_id (fst r)) (rows_of st c)
  = repeat (cat_id c) (List.length (rows_of st c)).
Proof.
  pose proof (rows_of_fst st c) as H.
  induction (rows_of st c) as [|r l IH]; [reflexivity|]. simpl.
  rewrite (H r (or_introl eq_refl)). f_equal. apply IH.
  intros x Hx. apply H. now right.
Qed.

Lemma join_ids_subset st cs i :
  In i (map (fun r => cat_id (fst r)) (flat_map (rows_of st) cs)) ->
  In i (map cat_id cs).
Proof.
  intros H. apply in_map_iff in H as [r [<- Hr]].
  apply in_flat_map in Hr as [c [Hc Hr]].
  rewrite (rows_of_fst st c r Hr). now apply in_map.
Qed.

Lemma join_distinct_ids st cs :
  NoDup (map cat_id cs) ->
  nodup string_dec (map (fun r => cat_id (fst r)) (flat_map (rows_of st) cs))
  = map cat_id cs.
Proof.
  induction cs as [|c cs IH]; [reflexivity|]. intros Hnd.
  inversion Hnd as [|? ? Hc Hcs]; subst. cbn [flat_map map].
  rewrite map_app, rows_of_ids.
  destruct (rows_of_cons st c) as [r [rest [E _]]]. rewrite E. cbn [List.length].
  rewrite nodup_block.
  - f_equal. now apply IH.
  - intros Hin. apply Hc. now apply (join_ids_subset st).
Qed.

Lemma join_group st cs c :
  NoDup (map cat_id cs) -> In c cs ->
  filter (fun r => String.eqb (cat_id (fst r)) (cat_id c)) (flat_map (rows_of st) cs)
  = rows_of st c.
Proof.
  induction cs as [|x cs IH]; [contradiction|]. intros Hnd Hin.
  inversion Hnd as [|? ? Hx Hcs]; subst. cbn [flat_map]. rewrite filter_app.
  assert (Hrest : forall y, In y cs -> cat_id y <> cat_id x)
    by (intros y Hy E; apply Hx; rewrite <- E; now apply in_map).
  destruct Hin as [-> | Hin].
  - rewrite filter_all, filter_none.
    + apply app_nil_r.
    + intros r Hr. apply in_flat_map in Hr as [y [Hy Hr]].
      rewrite (rows_of_fst st y r Hr). apply String.eqb_neq. now apply Hrest.
    + intros r Hr. rewrite (rows_of_fst st c r Hr). apply String.eqb_refl.
  - rewrite (filter_none _ (rows_of st x)).
    + now apply IH.
    + intros r Hr. rewrite (rows_of_fst st x r Hr). apply String.eqb_neq.
      intros E. now apply (Hrest c Hin).
Qed.

Lemma flat_map_singletons {A B} (f : A -> list B) (h : A -> B) (l : list A) :
  (forall x, In x l -> f x = [h x]) -> flat_map f l = map h l.
Proof.
  induction l as [|x l IH]; simpl; intros H; [reflexivity|].
  rewrite (H x (or_introl eq_refl)). simpl. f_equal. apply IH.
  intros y Hy. apply H. now right.
Qed.

Lemma flat_map_over_map {A B C} (f : B -> list C) (h : A -> B) (l : list A) :
  flat_map f (map h l) = flat_map (fun x => f (h x)) l.
Proof. induction l as [|x l IH]; simpl; [reflexivity | now rewrite IH]. Qed.

(** With unique category keys, grouping the join gives one row per category,
    in table order. *)
Lemma group_by_id_entries st :
  NoDup (map cat_id (categories st)) ->
  group_by_id (from_categories_left_join st) = map (entry st) (categories st).
Proof.
  intros Hnd. unfold group_by_id.
  change (from_categories_left_join st) with (flat_map (rows_of st) (categories st)).
  rewrite join_distinct_ids by assumption. rewrite flat_map_over_map.
  apply flat_map_singletons. intros c Hc.
  rewrite join_group by assumption.
  destruct (rows_of_cons st c) as [r [rest [E Hr]]].
  pose proof (rows_of_count st c) as Hcount. rewrite E in *.
  cbv beta iota. unfold entry. f_equal. f_equal; [exact Hr | exact Hcount].
Qed.

(** X16. With unique category keys the category listing has exactly one
    entry per category, and its [productCount] is the number of association
    rows that name the category, 0 for a category no product is in. *)
Theorem getCategories_counts_association_rows :
  forall (st : Store),
    NoDup (map cat_id (categories st)) ->
    exists body,
      get_categories st = (CategoryList 200 body, st)
      /\ Permutation body (map (entry st) (categories st))
      /\ (forall e, In e body ->
            productCount e
            = Z.of_nat (List.length
                          (filter (fun a => String.eqb (cat_id (category e))
                                              (Db.categoryId a))
                             (productCategories st)))).
Proof.
  intros st Hnd. unfold get_categories, getCategories, read.
  rewrite group_by_id_entries by assumption.
  eexists. split; [reflexivity|].
  assert (HP : Permutation (orderBy name_leb (map (entry st) (categories st)))
                 (map (entry st) (categories st)))
    by (apply Permutation_sym, orderBy_perm).
  split; [exact HP|].
  intros e He. apply (Permutation_in e HP) in He.
  apply in_map_iff in He as [c [<- _]]. reflexivity.
Qed.

Lemma getCategories_counts_association_rows_witness :
  exists body,
    get_categories Sample.store = (CategoryList 200 body, Sample.store)
    /\ Permutation body (map (entry Sample.store) (categories Sample.store)).
Proof.
  destruct (getCategories_counts_association_rows Sample.store) as [body [H1 [H2 _]]].
  - simpl. repeat constructor; simpl; intuition discriminate.
  - exists body. split; assumption.
Defined.

Lemma name_leb_total a b : name_leb a b = true \/ name_leb b a = true.
Proof. apply String.leb_total. Qed.

Lemma name_leb_trans a b c :
  name_leb a b = true -> name_leb b c = true -> name_leb a c = true.
Proof. apply string_leb_trans. Qed.

(** X17. The category listing is in ascending order of name: no entry is
    followed, at any distance, by one with a smaller name. *)
Theorem getCategories_is_sorted_by_name :
  forall (st : Store),
    exists body,
      get_categories st = (CategoryList 200 body, st)
      /\ StronglySorted
           (fun a b => String.leb (cat_name (category a)) (cat_name (category b)) = true)
           body.
Proof.
  intros st. unfold get_categories, getCategories, read.
  eexists. split; [reflexivity|].
  apply (orderBy_sorted CategoryWithProductCount name_leb name_leb_total name_leb_trans).
Qed.


Lemma has_category_false st cid :
  has_category st cid = false ->
  forall c, In c (categories st) -> String.eqb (cat_id c) cid = false.
Proof.
  unfold has_category. intros H c Hc.
  destruct (String.eqb (cat_id c) cid) eqn:E; [|reflexivity].
  rewrite <- H. symmetry. apply existsb_exists. now exists c.
Qed.

Lemma NoDup_app_iff_local (l : list string) (x : string) :
  NoDup l -> existsb (String.eqb x) l = false -> NoDup (l ++ [x]).
Proof.
  intros Hl Hx. apply NoDup_app; [assumption | repeat constructor; intros [] |].
  intros y Hy [->|[]].
  assert (existsb (String.eqb y) l = true)
    by (apply existsb_exists; exists y; split; [assumption | apply String.eqb_refl]).
  congruence.
Qed.

(** X18. Creating a category with a valid name and a fresh key answers 201
    with the new row, and the next category listing shows it with a product
    count of 0, beside the entries of the categories that were there; the
    product and association tables are not touched. *)
Theorem post_category_is_listed_without_products :
  forall (env : Env) (body : InsertCategory) (st : Store),
    valid_category body = true ->
    has_category st (newId env) = false ->
    NoDup (map cat_id (categories st)) ->
    (forall a, In a (productCategories st) -> Db.categoryId a <> newId env) ->
    let row := {| cat_id := newId env; cat_name := ins_cat_name body;
                  cat_createdAt := now env |} in
    exists st' listing,
      post_category env body st = (OneCategory 201 row, st')
      /\ products st' = products st
      /\ productCategories st' = productCategories st
      /\ get_categories st' = (CategoryList 200 listing, st')
      /\ In {| category := row; productCount := 0 |} listing
      /\ (forall c, In c (categories st) -> In (entry st c) listing).
Proof.
  intros env body st Hv Hfresh Hnd Hlinks row.
  set (st' := {| products := products st; categories := categories st ++ [row];
                 productCategories := productCategories st |}).
  assert (Hpost : post_category env body st = (OneCategory 201 row, st')).
  { unfold post_category, createCategory, bind, insert_categories, ret.
    now rewrite Hv, Hfresh. }
  assert (Hnd' : NoDup (map cat_id (categories st'))).
  { cbn [categories st']. rewrite map_app. cbn [map cat_id row].
    apply NoDup_app_iff_local; [assumption|].
    unfold has_category in Hfresh. rewrite <- Hfresh.
    clear. induction (categories st) as [|c l IH]; [reflexivity|].
    simpl. rewrite IH. f_equal. apply String.eqb_sym. }
  assert (Hlist : forall e, In e (map (entry st') (categories st')) ->
                            In e (orderBy name_leb (map (entry st') (categories st')))).
  { intros e. apply Permutation_in, orderBy_perm. }
  exists st', (orderBy name_leb (map (entry st') (categories st'))).
  split; [exact Hpost|]. split; [reflexivity|]. split; [reflexivity|]. split.
  - unfold get_categories, getCategories, read.
    now rewrite group_by_id_entries.
  - split.
    + apply Hlist. apply in_map_iff. exists row. split.
      * unfold entry, links. cbn [productCategories st'].
        rewrite (filter_none _ (productCategories st)); [reflexivity|].
        intros a Ha. apply String.eqb_neq. cbn [cat_id row].
        intros E. now apply (Hlinks a Ha).
      * cbn [categories st']. apply in_or_app. right. now left.
    + intros c Hc. apply Hlist. apply in_map_iff. exists c. split; [reflexivity|].
      cbn [categories st']. apply in_or_app. now left.
Qed.

Lemma post_category_is_listed_without_products_witness :
  exists st' listing,
    post_category Sample.env {| ins_cat_name := "Garden" |} Sample.store
    = (OneCategory 201 {| cat_id := "p3"; cat_name := "Garden"; cat_createdAt := 20 |},
       st')
    /\ get_categories st' = (CategoryList 200 listing, st')
    /\ In {| category := {| cat_id := "p3"; cat_name := "Garden"; cat_createdAt := 20 |};
             productCount := 0 |} listing.
Proof.
  destruct (post_category_is_listed_without_products Sample.env
              {| ins_cat_name := "Garden" |} Sample.store)
    as [st' [listing [H1 [_ [_ [H2 [H3 _]]]]]]].
  - reflexivity.
  - reflexivity.
  - simpl. repeat constructor; simpl; intuition discriminate.
  - intros a [<-|[<-|[<-|[]]]]; discriminate.
  - exists st', listing. auto.
Defined.

(** X19. After a category is deleted, looking it up answers 404 and no
    product has it attached any more, while every product keeps the other
    categories it had; the product table is not touched. *)
Theorem deleteCategory_detaches_the_category :
  forall (st : Store) (cid : string),
    let st' := snd (deleteCategory cid st) in
    delete_category cid st = (Empty 204, st')
    /\ get_category cid st' = (Message 404 "Category not found", st')
    /\ products st' = products st
    /\ (forall pid c,
          In c (categories_of st' pid) <->
          In c (categories_of st pid) /\ cat_id c <> cid).
Proof.
  intros st cid st'. split; [reflexivity|]. split; [|split; [reflexivity|]].
  - unfold get_category, getCategory, read, st', deleteCategory.
    cbn [snd categories]. now rewrite filter_filter_neg.
  - intros pid c. rewrite !categories_of_iff.
    unfold st', deleteCategory, cascade_category. cbn [snd categories productCategories].
    rewrite filter_In, negb_true_iff, String.eqb_neq. split.
    + intros [[Hc Hne] [a [Ha [Hp Hcid]]]].
      apply filter_In in Ha as [Ha _]. split; [|assumption].
      split; [assumption|]. exists a. auto.
    + intros [[Hc [a [Ha [Hp Hcid]]]] Hne]. split; [split; assumption|].
      exists a. split; [|auto]. apply filter_In. split; [assumption|].
      apply negb_true_iff. destruct (existsb _ _) eqn:E; [|reflexivity].
      apply existsb_exists in E as [d [Hd Hid]].
      apply filter_In in Hd as [_ Hd]. apply String.eqb_eq in Hd, Hid.
      congruence.
Qed.

End CategoryRoutes.

(* ===================================================================== *)
(** * Properties of the client components *)
(* ===================================================================== *)

Section ClientComponents.
Import MoreProps Client.
Local Open Scope list_scope.

Lemma includes_iff (o : string) (value : list string) :
  existsb (String.eqb o) value = true <-> In o value.
Proof.
  rewrite existsb_exists. split.
  - intros [x [Hx E]]. apply String.eqb_eq in E. now subst.
  - intros H. exists o. split; [assumption | apply String.eqb_refl].
Qed.

Lemma handleRemove_in value o x :
  In x (handleRemove value o) <-> In x value /\ x <> o.
Proof.
  unfold handleRemove. rewrite filter_In, negb_true_iff, String.eqb_neq. tauto.
Qed.

(** X20. Choosing an option in the multi-select toggles it: afterwards it
    is selected exactly when it was not before, and every other option is
    selected as before. A selection without repeats stays without repeats,
    and choosing an unselected option twice gives the selection back. *)
Theorem handleSelect_toggles_the_option :
  forall (value : list string) (o : string),
    (forall x, In x (handleSelect value o) <->
               (x = o /\ ~ In o value) \/ (x <> o /\ In x value))
    /\ (NoDup value -> NoDup (handleSelect value o))
    /\ (~ In o value -> handleSelect (handleSelect value o) o = value).
Proof.
  intros value o. unfold handleSelect.
  pose proof (includes_iff o value) as Hinc.
  destruct (existsb (String.eqb o) value) eqn:E.
  - assert (Hin : In o value) by now apply Hinc.
    split; [|split].
    + intros x. fold (handleRemove value o). rewrite handleRemove_in.
      split; [intros [H1 H2]; right; auto | intros [[_ H]|[H1 H2]]; [contradiction | auto]].
    + intros Hnd. now apply NoDup_filter.
    + intros Hn. contradiction.
  - assert (Hout : ~ In o value) by (intros H; apply Hinc in H; discriminate).
    split; [|split].
    + intros x. rewrite in_app_iff. simpl. split.
      * intros [H|[<-|[]]]; [right | left; auto].
        split; [|assumption]. intros ->. contradiction.
      * intros [[-> _]|[_ H]]; auto.
    + intros Hnd. apply NoDup_app; [assumption | repeat constructor; intros [] |].
      intros y Hy [->|[]]. contradiction.
    + intros _.
      assert (E2 : existsb (String.eqb o) (value ++ [o]) = true).
      { apply includes_iff. apply in_or_app. right. now left. }
      rewrite E2, filter_app. simpl. rewrite String.eqb_refl. simpl.
      rewrite app_nil_r. apply filter_all. intros y Hy.
      apply negb_true_iff, String.eqb_neq. intros ->. contradiction.
Qed.

Lemma handleSelect_toggles_the_option_witness :
  handleSelect (handleSelect ["c1"] "c2") "c2" = ["c1"].
Proof.
  apply (handleSelect_toggles_the_option ["c1"] "c2").
  intros [H|[]]. discriminate.
Defined.

(** ** The pagination bar *)

Lemma gaps_ok_run (n : nat) (p : Z) (tl : list PageItem) :
  gaps_ok p false (map PageNumber (count_up (p + 1) n) ++ tl)
  = gaps_ok (p + Z.of_nat n) false tl.
Proof.
  revert p. induction n as [|n IH]; intros p.
  - simpl. now rewrite Z.add_0_r.
  - cbn [count_up map app gaps_ok]. rewrite Z.eqb_refl. cbn [andb].
    rewrite IH. f_equal. lia.
Qed.

Lemma gaps_ok_range (prev : Z) (dots : bool) (lo : Z) (n : nat) (tl : list PageItem) :
  (0 < n)%nat ->
  (if dots then prev + 1 < lo else lo = prev + 1) ->
  gaps_ok prev dots (map PageNumber (count_up lo n) ++ tl)
  = gaps_ok (lo + Z.of_nat n - 1) false tl.
Proof.
  intros Hn Hc. destruct n as [|n]; [lia|].
  cbn [count_up map app gaps_ok].
  assert (E : (if dots then prev + 1 <? lo else lo =? prev + 1) = true).
  { destruct dots; [apply Z.ltb_lt | apply Z.eqb_eq]; assumption. }
  rewrite E. cbn [andb]. rewrite gaps_ok_run. f_equal. lia.
Qed.

Lemma in_count_up (n : nat) (lo x : Z) :
  lo <= x < lo + Z.of_nat n -> In x (count_up lo n).
Proof.
  revert lo. induction n as [|n IH]; intros lo H; [lia|].
  cbn [count_up]. destruct (Z.eq_dec lo x) as [->|Hne]; [now left|].
  right. apply IH. lia.
Qed.

Lemma last_bar (pre mid : list PageItem) (x : PageItem) :
  last (pre ++ mid ++ [x]) Dots = x.
Proof. rewrite app_assoc. apply last_last. Qed.

Lemma last_bar_dots (pre mid : list PageItem) (x : PageItem) :
  last (pre ++ mid ++ [Dots; x]) Dots = x.
Proof.
  change [Dots; x] with ([Dots] ++ [x]). rewrite !app_assoc. apply last_last.
Qed.

(** X21. For a current page between 1 and a total of at least 2 pages, the
    pagination bar starts with page 1, ends with the last page and shows the
    current page; read from left to right, two numbers next to each other
    are consecutive pages, dots stand between two numbers that leave at
    least one page out, and dots never come twice in a row. With a single
    page nothing is rendered. *)
Theorem getVisiblePages_is_a_gapped_run :
  forall (currentPage totalPages : Z),
    1 <= currentPage <= totalPages ->
    2 <= totalPages ->
    (exists rest,
        getVisiblePages currentPage totalPages = PageNumber 1 :: rest
        /\ gaps_ok 1 false rest = true)
    /\ last (getVisiblePages currentPage totalPages) Dots = PageNumber totalPages
    /\ In (PageNumber currentPage) (getVisiblePages currentPage totalPages)
    /\ Pagination currentPage totalPages
       = Some (getVisiblePages currentPage totalPages)
    /\ Pagination currentPage 1 = None.
Proof.
  intros c T Hc HT. unfold Pagination.
  assert (E1 : (T <=? 1) = false) by (apply Z.leb_gt; lia).
  rewrite E1. change (1 <=? 1) with true. cbv iota.
  unfold getVisiblePages. cbv zeta.
  set (lo := Z.max 2 (c - 2)). set (hi := Z.min (T - 1) (c + 2)).
  set (n := Z.to_nat (hi - lo + 1)).
  assert (Hn : T = 2 \/ (3 <= T /\ (0 < n)%nat /\ lo + Z.of_nat n - 1 = hi))
    by (unfold n, lo, hi; lia).
  assert (Hin : c = 1 \/ c = T \/ In c (count_up lo n)).
  { destruct (Z.eq_dec c 1); [now left|]. destruct (Z.eq_dec c T); [right; now left|].
    right. right. apply in_count_up. unfold n, lo, hi. lia. }
  destruct (c - 2 >? 2) eqn:EL; destruct (c + 2 <? T - 1) eqn:ER;
    rewrite ?Z.gtb_ltb in EL;
    try apply Z.ltb_lt in EL; try apply Z.ltb_ge in EL;
    try apply Z.ltb_lt in ER; try apply Z.ltb_ge in ER.
  - (* dots on both sides *)
    destruct Hn as [->|[H3 [Hpos Hhi]]]; [lia|].
    split; [|split; [|split; [|split]]]; try reflexivity.
    + eexists. split; [reflexivity|]. cbn [gaps_ok negb andb].
      rewrite gaps_ok_range by (assumption || (unfold lo; lia)).
      rewrite Hhi. cbn [gaps_ok negb andb].
      rewrite andb_true_r. apply Z.ltb_lt. unfold hi. lia.
    + apply last_bar_dots.
    + destruct Hin as [->|[->|Hin]]; [now left | |].
      * apply in_or_app. right. apply in_or_app. right. right. now left.
      * apply in_or_app. right. apply in_or_app. left. now apply in_map.
  - (* dots on the left *)
    assert (E2 : (T >? 1) = true) by (apply Z.gtb_lt; lia). rewrite E2.
    destruct Hn as [->|[H3 [Hpos Hhi]]]; [lia|].
    split; [|split; [|split; [|split]]]; try reflexivity.
    + eexists. split; [reflexivity|]. cbn [gaps_ok negb andb].
      rewrite gaps_ok_range by (assumption || (unfold lo; lia)).
      rewrite Hhi. cbn [gaps_ok negb andb].
      rewrite andb_true_r. apply Z.eqb_eq. unfold hi. lia.
    + apply last_bar.
    + destruct Hin as [->|[->|Hin]]; [now left | |].
      * apply in_or_app. right. apply in_or_app. right. now left.
      * apply in_or_app. right. apply in_or_app. left. now apply in_map.
  - (* dots on the right *)
    destruct Hn as [->|[H3 [Hpos Hhi]]]; [lia|].
    split; [|split; [|split; [|split]]]; try reflexivity.
    + eexists. split; [reflexivity|].
      rewrite gaps_ok_range by (assumption || (unfold lo; lia)).
      rewrite Hhi. cbn [gaps_ok negb andb].
      rewrite andb_true_r. apply Z.ltb_lt. unfold hi. lia.
    + apply last_bar_dots.
    + destruct Hin as [->|[->|Hin]]; [now left | |].
      * apply in_or_app. right. apply in_or_app. right. right. now left.
      * apply in_or_app. right. apply in_or_app. left. now apply in_map.
  - (* no dots *)
    assert (E2 : (T >? 1) = true) by (apply Z.gtb_lt; lia). rewrite E2.
    assert (Hlast : last ([PageNumber 1] ++ map PageNumber (count_up lo n)
                          ++ [PageNumber T]) Dots = PageNumber T).
    { apply last_bar. }
    assert (Hcur : In (PageNumber c)
                     ([PageNumber 1] ++ map PageNumber (count_up lo n)
                      ++ [PageNumber T])).
    { destruct Hin as [->|[->|Hin]]; [now left | |].
      * apply in_or_app. right. apply in_or_app. right. now left.
      * apply in_or_app. right. apply in_or_app. left. now apply in_map. }
    split; [|split; [|split; [|split]]]; try reflexivity; try assumption.
    eexists. split; [reflexivity|].
    destruct Hn as [->|[H3 [Hpos Hhi]]].
    + assert (Hz : n = O) by (unfold n, lo, hi; lia).
      rewrite Hz. reflexivity.
    + rewrite gaps_ok_range by (assumption || (unfold lo; lia)).
      rewrite Hhi. cbn [gaps_ok negb andb].
      rewrite andb_true_r. apply Z.eqb_eq. unfold hi. lia.
Qed.

Lemma getVisiblePages_is_a_gapped_run_witness :
  last (getVisiblePages 6 20) Dots = PageNumber 20.
Proof.
  apply (getVisiblePages_is_a_gapped_run 6 20); lia.
Defined.

(** ** The page count and the range shown under the table *)

Lemma totalPages_bounds total :
  (totalPages total - 1) * 10 < total <= totalPages total * 10.
Proof.
  unfold totalPages.
  pose proof (Z.div_mod (- total) 10 ltac:(lia)) as Hd.
  pose proof (Z.mod_pos_bound (- total) 10 ltac:(lia)) as Hm.
  lia.
Qed.

(** X22. The page count is the least number of pages of 10 that hold all
    the results. For a listing with results and a page within that count,
    the range shown under the table is not empty, has at most 10 rows and
    stays within the results; the range of the next page starts right after
    it, and the range of the last page ends at the total. *)
Theorem showing_ranges_tile_the_results :
  forall (total page : Z),
    0 < total ->
    1 <= page <= totalPages total ->
    (totalPages total - 1) * 10 < total <= totalPages total * 10
    /\ 1 <= showing_from page <= showing_to page total
    /\ showing_to page total <= total
    /\ showing_to page total - showing_from page + 1 <= 10
    /\ (page < totalPages total ->
        showing_from (page + 1) = showing_to page total + 1)
    /\ (page = totalPages total -> showing_to page total = total).
Proof.
  intros total page Ht Hp.
  pose proof (totalPages_bounds total) as Hb.
  unfold showing_from, showing_to. repeat split; lia.
Qed.

Lemma showing_ranges_tile_the_results_witness :
  showing_to 2 15 = 15.
Proof.
  apply (showing_ranges_tile_the_results 15 2); [lia | split; [lia|] | reflexivity].
  apply Z.leb_le. reflexivity.
Defined.

End ClientComponents.

(* ===================================================================== *)
(** * When the listing has no repeats, and what a search matches *)
(* ===================================================================== *)

Section Fanout.
Import Db Storage Routes Props MoreProps.
Local Open Scope list_scope.

Lemma flat_map_blocks {A} (B : A -> list A) (l : list A) :
  (forall p, In p l -> B p = [] \/ B p = [p]) ->
  flat_map B l = filter (fun p => match B p with [] => false | _ => true end) l.
Proof.
  induction l as [|p l IH]; [reflexivity|]. intros H. cbn [flat_map filter].
  rewrite IH by (intros q Hq; apply H; now right).
  destruct (H p (or_introl eq_refl)) as [E|E]; rewrite E; reflexivity.
Qed.

Lemma at_most_one_pair (l : list ProductCategory) (i c : string) :
  pairwise_distinct l = true ->
  (List.length (filter (fun a => String.eqb i (productId a)
                                 && String.eqb (Db.categoryId a) c) l) <= 1)%nat.
Proof.
  induction l as [|a l IH]; simpl; intros H; [lia|].
  apply andb_true_iff in H as [Ha Hl]. specialize (IH Hl).
  destruct (String.eqb i (productId a) && String.eqb (Db.categoryId a) c) eqn:E;
    [|assumption].
  apply andb_true_iff in E as [E1 E2]. apply String.eqb_eq in E1, E2.
  rewrite (filter_none _ l); [simpl; lia|].
  intros b Hb.
  destruct (String.eqb i (productId b) && String.eqb (Db.categoryId b) c) eqn:Eb;
    [|reflexivity].
  apply andb_true_iff in Eb as [B1 B2]. apply String.eqb_eq in B1, B2.
  apply negb_true_iff in Ha.
  assert (Hex : existsb (same_pair a) l = true).
  { apply existsb_exists. exists b. split; [assumption|].
    unfold same_pair. apply andb_true_iff.
    split; apply String.eqb_eq; congruence. }
  congruence.
Qed.

Lemma filter_length_le_of_imp {A} (f g : A -> bool) (l : list A) :
  (forall x, f x = true -> g x = true) ->
  (List.length (filter f l) <= List.length (filter g l))%nat.
Proof.
  intros H. induction l as [|x l IH]; simpl; [lia|].
  destruct (f x) eqn:E.
  - rewrite (H x E). simpl. lia.
  - destruct (g x); simpl; lia.
Qed.

Lemma constant_block {A B} (p : B) (l : list A) :
  (List.length l <= 1)%nat ->
  map (fun _ => p) l = [] \/ map (fun _ => p) l = [p].
Proof.
  destruct l as [|x [|y l]]; simpl; intros H; [now left | now right | lia].
Qed.

Lemma project_filtered_join {A B C} (F : A * C -> bool) (k : B -> C)
  (S : A -> list B) (l : list A) :
  map fst (filter F (flat_map (fun p => map (fun b => (p, k b)) (S p)) l))
  = flat_map (fun p => map (fun _ => p) (filter (fun b => F (p, k b)) (S p))) l.
Proof.
  induction l as [|p l IH]; [reflexivity|]. simpl.
  rewrite filter_app, map_app, IH. f_equal.
  induction (S p) as [|b bs IHb]; [reflexivity|]. simpl.
  destruct (F (p, k b)); simpl; now rewrite IHb.
Qed.

Lemma selected_as_flat_map st params :
  joins_categories params = true ->
  selected st params
  = flat_map
      (fun p =>
         map (fun _ => p)
           (filter (fun a => forallb (fun c => holds c (p, Some a)) (conditions params))
              (filter (fun a => String.eqb (id p) (productId a))
                 (productCategories st))))
      (products st).
Proof.
  intros Hj. unfold selected. rewrite filtered_rows_eq, Hj.
  unfold where_and, from_products_join.
  apply (project_filtered_join
           (fun r => forallb (fun c => holds c r) (conditions params))
           (@Some ProductCategory)
           (fun p => filter (fun a => String.eqb (id p) (productId a))
                       (productCategories st))).
Qed.

Lemma project_filtered_table {A C} (F : A * C -> bool) (c : C) (l : list A) :
  map fst (filter F (map (fun p => (p, c)) l)) = filter (fun p => F (p, c)) l.
Proof.
  induction l as [|p l IH]; [reflexivity|]. simpl.
  destruct (F (p, c)); simpl; now rewrite IH.
Qed.

Lemma selected_without_join st params :
  joins_categories params = false ->
  selected st params
  = filter (fun p => forallb (fun c => holds c (p, None)) (conditions params))
      (products st).
Proof.
  intros Hj. unfold selected. rewrite filtered_rows_eq, Hj.
  unfold where_and, from_products.
  apply (project_filtered_table
           (fun r => forallb (fun c => holds c r) (conditions params))
           (@None ProductCategory)).
Qed.

(** Without a category filter, or with a single category in a table without
    repeated pairs, the selected rows are a sub-list of the product table. *)
Lemma selected_is_a_filter st params :
  categoriesToFilter params = None
  \/ (exists c, categoriesToFilter params = Some [c]
                /\ pairwise_distinct (productCategories st) = true) ->
  exists g, selected st params = filter g (products st).
Proof.
  intros [Hnone | [c [Hone Hpd]]].
  - eexists. apply selected_without_join.
    unfold joins_categories. now rewrite Hnone.
  - eexists. rewrite selected_as_flat_map
      by (unfold joins_categories; now rewrite Hone).
    apply flat_map_blocks. intros p _. apply constant_block.
    rewrite filter_filter_and.
    eapply Nat.le_trans; [|apply (at_most_one_pair _ (id p) c Hpd)].
    apply filter_length_le_of_imp. intros a Ha.
    apply andb_true_iff in Ha as [Hh Hm]. rewrite Hm. cbn [andb].
    rewrite conditions_hold, Hone in Hh.
    apply andb_true_iff in Hh as [_ Hs]. simpl in Hs.
    now rewrite orb_false_r in Hs.
Qed.

Lemma NoDup_window {A} (n m : nat) (l : list A) :
  NoDup l -> NoDup (firstn n (skipn m l)).
Proof.
  intros H. rewrite <- (firstn_skipn m l) in H. apply NoDup_app_remove_l in H.
  rewrite <- (firstn_skipn n (skipn m l)) in H. now apply NoDup_app_remove_r in H.
Qed.

(** X23. With unique product keys, a listing without category filter, or
    with a single category when no association pair is stored twice,
    returns no product twice, and its total is the number of selected rows. *)
Theorem getProducts_has_no_repeats_without_fan_out :
  forall (st st' : Store) (params : ProductsParams) (result : ProductsResult),
    getProducts params st = (Ok result, st') ->
    NoDup (map id (products st)) ->
    categoriesToFilter params = None
    \/ (exists c, categoriesToFilter params = Some [c]
                  /\ pairwise_distinct (productCategories st) = true) ->
    NoDup (map (fun r => id (product r)) (result_products result))
    /\ total result = Z.of_nat (List.length (selected st params)).
Proof.
  intros st st' params result H Hnd Hcat.
  destruct (selected_is_a_filter st params Hcat) as [g Hg].
  assert (Hsel : NoDup (map id (selected st params)))
    by (rewrite Hg; now apply NoDup_map_filter).
  apply getProducts_steps in H as [column [rows [_ [_ [Hw [-> _]]]]]].
  apply limit_offset_window in Hw as [n [m ->]].
  cbn [result_products total]. split.
  - rewrite map_map. cbn [product attach].
    rewrite <- firstn_map, <- skipn_map. apply NoDup_window.
    eapply Permutation_NoDup; [|exact Hsel].
    apply Permutation_map, orderBy_perm.
  - unfold count_distinct_id. f_equal.
    rewrite <- (map_map fst id). fold (selected st params).
    rewrite nodup_fixed_point by assumption. apply length_map.
Qed.

Lemma getProducts_has_no_repeats_without_fan_out_witness :
  NoDup (map (fun r => id (product r))
           (result_products
              {| result_products := map (attach Sample.store) [Sample.widget; Sample.gadget];
                 total := 2 |})).
Proof.
  apply (getProducts_has_no_repeats_without_fan_out Sample.store Sample.store
           Sample.defaults
           {| result_products := map (attach Sample.store) [Sample.widget; Sample.gadget];
              total := 2 |}).
  - reflexivity.
  - simpl. repeat constructor; simpl; intuition discriminate.
  - left. reflexivity.
Defined.

End Fanout.

Section Search.
Import Db Storage Routes Props MoreProps.
Local Open Scope list_scope.

Lemma like_percent_unfold (p v : list ascii) :
  like ("%"%char :: p) v
  = like p v || match v with [] => false | _ :: v' => like ("%"%char :: p) v' end.
Proof. destruct v; reflexivity. Qed.

Lemma like_percent (p v : list ascii) :
  like ("%"%char :: p) v = true <->
  exists pre post, v = pre ++ post /\ like p post = true.
Proof.
  induction v as [|x v IH]; rewrite like_percent_unfold.
  - rewrite orb_false_r. split.
    + intros H. now exists [], [].
    + intros [pre [post [E H]]]. symmetry in E.
      apply app_eq_nil in E as [_ ->]. exact H.
  - rewrite orb_true_iff, IH. split.
    + intros [H | [pre [post [-> H]]]].
      * now exists [], (x :: v).
      * now exists (x :: pre), post.
    + intros [[|y pre] [post [E H]]].
      * left. simpl in E. now subst.
      * right. simpl in E. injection E as -> ->. now exists pre, post.
Qed.

Lemma like_literal (c : ascii) (p v : list ascii) :
  wildcard c = false ->
  like (c :: p) v
  = match v with x :: v' => Ascii.eqb c x && like p v' | [] => false end.
Proof.
  unfold wildcard. intros H.
  apply orb_false_iff in H as [H H3]. apply orb_false_iff in H as [H1 H2].
  cbn [like]. rewrite H1, H2, H3. reflexivity.
Qed.

Lemma like_literals (s p v : list ascii) :
  forallb (fun c => negb (wildcard c)) s = true ->
  (like (s ++ p) v = true <-> exists rest, v = s ++ rest /\ like p rest = true).
Proof.
  revert v. induction s as [|c s IH]; intros v Hs.
  - simpl. split; [intros H; now exists v | now intros [rest [-> H]]].
  - cbn [forallb] in Hs. apply andb_true_iff in Hs as [Hc Hs].
    apply negb_true_iff in Hc. cbn [app]. rewrite like_literal by assumption.
    destruct v as [|x v].
    + split; [discriminate | intros [rest [E _]]; discriminate].
    + rewrite andb_true_iff, (IH v Hs). split.
      * intros [E [rest [-> H]]]. apply Ascii.eqb_eq in E. subst. now exists rest.
      * intros [rest [E H]]. injection E as -> ->. split; [apply Ascii.eqb_refl|].
        now exists rest.
Qed.

Lemma like_contains (s v : list ascii) :
  forallb (fun c => negb (wildcard c)) s = true ->
  (like ("%"%char :: s ++ ["%"%char]) v = true <->
   exists pre post, v = pre ++ s ++ post).
Proof.
  intros Hs. rewrite like_percent. split.
  - intros [pre [post [-> H]]]. apply (like_literals s) in H as [rest [-> _]];
      [|assumption]. now exists pre, rest.
  - intros [pre [post ->]]. exists pre, (s ++ post). split; [reflexivity|].
    apply like_literals; [assumption|]. exists post. split; [reflexivity|].
    apply like_percent. exists post, [].
    split; [now rewrite app_nil_r | reflexivity].
Qed.

Lemma wildcard_lower (c : ascii) : wildcard (lower c) = wildcard c.
Proof.
  destruct c as [[] [] [] [] [] [] [] []]; vm_compute; reflexivity.
Qed.

(** X24. The search condition of the listing holds of a product exactly
    when the search text occurs in its name, letter case apart, provided the
    text has none of the pattern characters [%], [_] and [\]. *)
Theorem search_matches_names_that_contain_the_text :
  forall (p : Product) (pc : option ProductCategory) (s : string),
    forallb (fun c => negb (wildcard c)) (list_ascii_of_string s) = true ->
    (holds (NameILike ("%" ++ s ++ "%")) (p, pc) = true <->
     exists pre post,
       map lower (list_ascii_of_string (name p))
       = pre ++ map lower (list_ascii_of_string s) ++ post).
Proof.
  intros p pc s Hs. cbn [holds]. unfold ilike.
  rewrite !chars_of_append, !map_app.
  change (map lower (list_ascii_of_string "%")) with ["%"%char].
  cbn [app]. apply like_contains.
  rewrite forallb_forall in *. intros c Hc.
  apply in_map_iff in Hc as [c0 [<- Hc0]]. rewrite wildcard_lower. now apply Hs.
Qed.

Lemma search_matches_names_that_contain_the_text_witness :
  holds (NameILike ("%" ++ "GET" ++ "%")) (Sample.widget, None) = true.
Proof.
  apply (search_matches_names_that_contain_the_text Sample.widget None "GET");
    [reflexivity|].
  exists (list_ascii_of_string "wid"), []. reflexivity.
Defined.

End Search.

Section Replace.
Import Db Storage Routes Props MoreProps.
Local Open Scope list_scope.

Lemma pairwise_distinct_filter (f : ProductCategory -> bool) (l : list ProductCategory) :
  pairwise_distinct l = true -> pairwise_distinct (filter f l) = true.
Proof.
  induction l as [|a l IH]; [reflexivity|]. simpl. intros H.
  apply andb_true_iff in H as [Ha Hl]. destruct (f a); [|auto].
  simpl. rewrite (IH Hl), andb_true_r. apply negb_true_iff.
  apply negb_true_iff in Ha.
  destruct (existsb (same_pair a) (filter f l)) eqn:E; [|reflexivity].
  apply existsb_exists in E as [b [Hb Hs]]. apply filter_In in Hb as [Hb _].
  rewrite <- Ha. symmetry. apply existsb_exists. now exists b.
Qed.

(** X25. An update of a stored product that names pairwise distinct ids of
    existing categories (unique product keys, a store that respects its
    constraints) succeeds and answers with the row as the patch changes it
    (named columns replaced, the others, the id and [createdAt] kept,
    [updatedAt] the time of the update) and, attached to it, exactly the
    categories whose id was supplied. *)
Theorem updateProduct_returns_the_named_categories :
  forall (u : bool) (env : Env) (patch : PartialProduct) (ids : list string)
         (st : Store) (p : Product),
    consistent u st ->
    NoDup (map id (products st)) ->
    In p (products st) ->
    NoDup ids ->
    (forall c, In c ids -> has_category st c = true) ->
    exists updated,
      fst (updateProduct u env (id p) patch (Some ids) st) = Ok (Some updated)
      /\ patched patch (now env) p (product updated)
      /\ (forall c, In c (attached updated) <->
                    In c (categories st) /\ In (cat_id c) ids).
Proof.
  intros u env patch ids st p [Hfk Huniq] Hnd Hin Hids Hcats.
  set (pid := id p).
  set (st1 := after_delete env pid patch st).
  set (st2 := {| products := products st1; categories := categories st1;
                 productCategories :=
                   productCategories st1 ++ association_rows pid ids |}).
  assert (Hfound : filter (fun x => String.eqb (id x) pid) (products st1)
                   = [set_columns patch (now env) p]).
  { unfold st1, after_delete, update_products.
    cbn [snd delete_productCategories products].
    unfold pid. rewrite filter_patched_same.
    now rewrite (filter_unique_id (products st) p Hnd Hin). }
  assert (Hstep : updateProduct u env pid patch (Some ids) st = getProduct pid st2).
  { rewrite updateProduct_replace_eq. cbv zeta. fold st1.
    destruct ids as [|c cs].
    { unfold st2. cbn [association_rows map]. rewrite app_nil_r.
      now rewrite store_eta. }
    assert (Hcheck : check_insert u st1 (association_rows pid (c :: cs)) = None).
    { unfold check_insert.
      assert (Hfkok : forallb
                (fun a => has_product st1 (productId a)
                          && has_category st1 (Db.categoryId a))
                (association_rows pid (c :: cs)) = true).
      { apply forallb_true. intros a Ha. apply in_map_iff in Ha as [c' [<- Hc']].
        cbn [productId Db.categoryId]. apply andb_true_iff. split.
        - unfold has_product. apply existsb_exists.
          exists (set_columns patch (now env) p).
          assert (Hm : In (set_columns patch (now env) p)
                         (filter (fun x => String.eqb (id x) pid) (products st1)))
            by (rewrite Hfound; now left).
          now apply filter_In in Hm.
        - apply (Hcats c' Hc'). }
      rewrite Hfkok. cbn [negb].
      destruct u; [|reflexivity]. cbn [andb].
      assert (Hpd : pairwise_distinct
                      (productCategories st1 ++ association_rows pid (c :: cs)) = true).
      { apply pairwise_distinct_app.
        - unfold st1, after_delete. cbn [snd delete_productCategories productCategories
                                         update_products].
          apply pairwise_distinct_filter, Huniq. reflexivity.
        - now apply pairwise_distinct_rows.
        - intros a b Ha Hb. apply in_map_iff in Hb as [c' [<- Hc']].
          unfold same_pair. cbn [productId].
          unfold st1, after_delete in Ha.
          cbn [snd delete_productCategories productCategories update_products] in Ha.
          apply filter_In in Ha as [_ Ha]. apply negb_true_iff in Ha.
          now rewrite Ha. }
      now rewrite Hpd. }
    now rewrite Hcheck. }
  rewrite Hstep. unfold getProduct, read. cbn [fst].
  change (products st2) with (products st1). rewrite Hfound.
  eexists. split; [reflexivity|]. cbn [product attached attach].
  split; [apply set_columns_patched|].
  intros c. rewrite categories_of_iff. cbn [id set_columns].
  unfold st2. cbn [categories productCategories].
  split.
  - intros [Hc [a [Ha [Hp Hcid]]]]. split; [exact Hc|].
    apply in_app_or in Ha as [Ha | Ha].
    + unfold st1, after_delete in Ha.
      cbn [snd delete_productCategories productCategories update_products] in Ha.
      apply filter_In in Ha as [_ Ha]. apply negb_true_iff, String.eqb_neq in Ha.
      contradiction.
    + apply in_map_iff in Ha as [i [<- Hi]]. cbn [Db.categoryId] in Hcid.
      now rewrite <- Hcid.
  - intros [Hc Hi]. split; [exact Hc|].
    exists {| productId := pid; Db.categoryId := cat_id c |}.
    split; [|split; reflexivity].
    apply in_or_app. right. apply in_map_iff. now exists (cat_id c).
Qed.

Lemma updateProduct_returns_the_named_categories_witness :
  exists updated,
    fst (updateProduct true Sample.env "p1" Sample.rename (Some ["c2"]) Sample.store)
    = Ok (Some updated)
    /\ name (product updated) = "Widget II"
    /\ stockQuantity (product updated) = 7
    /\ updatedAt (product updated) = 20
    /\ (In Sample.electronics (attached updated)
        <-> In Sample.electronics (categories Sample.store)
            /\ In (cat_id Sample.electronics) ["c2"]).
Proof.
  destruct (updateProduct_returns_the_named_categories true Sample.env
              Sample.rename ["c2"] Sample.store Sample.widget)
    as [updated [H1 [[_ [_ [Ht [Hn [_ [_ [Hs _]]]]]]] H3]]].
  - split; [repeat constructor | reflexivity].
  - simpl. repeat constructor; simpl; intuition discriminate.
  - now left.
  - repeat constructor. simpl. intuition.
  - intros c [<-|[]]. reflexivity.
  - exists updated. split; [exact H1|]. split; [exact Hn|]. split; [exact Hs|].
    split; [exact Ht|]. apply H3.
Defined.

End Replace.
